(** * zdeploy: token and user services of the server

    A shallow embedding of [server/internal/token] (token.go,
    token_repository.go, token_service.go) and [server/internal/user]
    (the user service, the password holder and the user repository),
    together with the properties of the token life cycle, the credential
    model and the user service.

    Conventions.
    - A Go [string] is a sequence of bytes: [string] (one [ascii] per byte).
      A Go [[]byte] is a [list byte].
    - Go's [int], [int64] and [time.Duration] are [Z]; the code only compares
      them and adds a duration to a time, which stays far from the 64-bit
      limits for every wall-clock reading, so no wrap-around is involved.
    - A [time.Time] is a [Z]: nanoseconds since the epoch.
    - A Go result [(v, err)] is a pair of options: [None] is [nil].
    - The database, the wall clock and the entropy source are fields of an
      explicit world that every operation threads through. *)

From Stdlib Require Import String Ascii.
From Stdlib Require Import ZArith NArith Bool Lia List.
From Stdlib Require Import Strings.Byte.
Import ListNotations.

Local Open Scope string_scope.
Local Open Scope list_scope.
Local Open Scope Z_scope.

Set Implicit Arguments.

(** ** Bytes *)

Definition byte_of_Z (z : Z) : byte :=
  match Byte.of_N (Z.to_N (z mod 256)) with
  | Some b => b
  | None => x00
  end.

Definition Z_of_byte (b : byte) : Z := Z.of_N (Byte.to_N b).

Definition bytes_eqb (a b : list byte) : bool :=
  if list_eq_dec Byte.byte_eq_dec a b then true else false.

(** ** crypto/sha256

    [Sum256] of the Go standard library, written from FIPS 180-4: 32-bit
    words are [Z] reduced modulo [2^32]. *)

Module sha256.

Definition w32 (x : Z) : Z := x mod 4294967296.

Definition add32 (x y : Z) : Z := w32 (x + y).

Definition rotr (n x : Z) : Z :=
  Z.lor (Z.shiftr x n) (w32 (Z.shiftl x (32 - n))).

Definition not32 (x : Z) : Z := Z.lxor x 0xffffffff.

Definition Ch (x y z : Z) : Z := Z.lxor (Z.land x y) (Z.land (not32 x) z).
Definition Maj (x y z : Z) : Z :=
  Z.lxor (Z.lxor (Z.land x y) (Z.land x z)) (Z.land y z).
Definition Sigma0 (x : Z) : Z := Z.lxor (Z.lxor (rotr 2 x) (rotr 13 x)) (rotr 22 x).
Definition Sigma1 (x : Z) : Z := Z.lxor (Z.lxor (rotr 6 x) (rotr 11 x)) (rotr 25 x).
Definition sigma0 (x : Z) : Z := Z.lxor (Z.lxor (rotr 7 x) (rotr 18 x)) (Z.shiftr x 3).
Definition sigma1 (x : Z) : Z := Z.lxor (Z.lxor (rotr 17 x) (rotr 19 x)) (Z.shiftr x 10).

(** The constants of the standard are fractional parts of roots of the
    first primes, 32 bits of each: of the cube roots of the first 64 primes
    for the round constants, of the square roots of the first 8 primes for
    the initial chaining value. *)
Definition prime (n : nat) : bool :=
  forallb (fun d => negb (Nat.eqb (Nat.modulo n d) 0)) (seq 2 (n - 2)).

Definition primes : list Z :=
  Eval vm_compute in map Z.of_nat (firstn 64 (filter prime (seq 2 320))).

(** The integer cube root of [n < 2^(3 bits)], bit by bit from the top. *)
Fixpoint cube_root (bits : nat) (n r : Z) : Z :=
  match bits with
  | O => r
  | S b =>
      let r' := r + Z.shiftl 1 (Z.of_nat b) in
      cube_root b n (if r' * r' * r' <=? n then r' else r)
  end.

Definition K : list Z :=
  Eval vm_compute in map (fun p => w32 (cube_root 36 (Z.shiftl p 96) 0)) primes.

(** The eight working variables, also the chaining value. *)
Record digest := Digest { ha : Z; hb : Z; hc : Z; hd : Z; he : Z; hf : Z; hg : Z; hh : Z }.

Definition fraction_of_root (p : Z) : Z := w32 (Z.sqrt (Z.shiftl p 64)).

Definition init : digest :=
  Eval vm_compute in
    Digest (fraction_of_root 2) (fraction_of_root 3) (fraction_of_root 5)
           (fraction_of_root 7) (fraction_of_root 11) (fraction_of_root 13)
           (fraction_of_root 17) (fraction_of_root 19).

(** Message padding: a one bit, zeros up to 56 modulo 64, then the bit
    length as a big-endian 64-bit integer. *)
Definition be64 (n : Z) : list Z :=
  map (fun i => Z.shiftr n (8 * i) mod 256) [7; 6; 5; 4; 3; 2; 1; 0].

Definition pad (msg : list Z) : list Z :=
  let len := Z.of_nat (length msg) in
  let zeros := Z.to_nat ((55 - len) mod 64) in
  msg ++ 128 :: repeat 0 zeros ++ be64 (8 * len).

(** Big-endian 32-bit words of a byte sequence (a trailing partial word is
    dropped; padded messages have none). *)
Fixpoint words (bs : list Z) : list Z :=
  match bs with
  | b0 :: b1 :: b2 :: b3 :: rest =>
      (b0 * 16777216 + b1 * 65536 + b2 * 256 + b3) :: words rest
  | _ => []
  end.

(** The message schedule, most recent word first: [extend n ws] appends
    [n] further words to the schedule [ws]. *)
Fixpoint extend (n : nat) (ws : list Z) : list Z :=
  match n with
  | O => ws
  | S n' =>
      let w := add32 (add32 (sigma1 (nth 1 ws 0)) (nth 6 ws 0))
                     (add32 (sigma0 (nth 14 ws 0)) (nth 15 ws 0)) in
      extend n' (w :: ws)
  end.

Definition schedule (block : list Z) : list Z := rev (extend 48 (rev block)).

Definition round (s : digest) (kw : Z * Z) : digest :=
  let (k, w) := kw in
  let t1 := add32 (add32 (add32 (hh s) (Sigma1 (he s))) (Ch (he s) (hf s) (hg s)))
                  (add32 k w) in
  let t2 := add32 (Sigma0 (ha s)) (Maj (ha s) (hb s) (hc s)) in
  Digest (add32 t1 t2) (ha s) (hb s) (hc s) (add32 (hd s) t1) (he s) (hf s) (hg s).

Definition compress (s : digest) (block : list Z) : digest :=
  let t := fold_left round (combine K (schedule block)) s in
  Digest (add32 (ha s) (ha t)) (add32 (hb s) (hb t)) (add32 (hc s) (hc t))
         (add32 (hd s) (hd t)) (add32 (he s) (he t)) (add32 (hf s) (hf t))
         (add32 (hg s) (hg t)) (add32 (hh s) (hh t)).

(** The 16-word blocks of a word sequence. *)
Fixpoint blocks (fuel : nat) (ws : list Z) : list (list Z) :=
  match fuel with
  | O => []
  | S fuel' =>
      match ws with
      | [] => []
      | _ => firstn 16 ws :: blocks fuel' (skipn 16 ws)
      end
  end.

Definition be32 (w : Z) : list byte :=
  [ byte_of_Z (Z.shiftr w 24); byte_of_Z (Z.shiftr w 16);
    byte_of_Z (Z.shiftr w 8); byte_of_Z w ].

Definition bytes_of_digest (s : digest) : list byte :=
  be32 (ha s) ++ be32 (hb s) ++ be32 (hc s) ++ be32 (hd s) ++
  be32 (he s) ++ be32 (hf s) ++ be32 (hg s) ++ be32 (hh s).

Definition Sum256 (data : list byte) : list byte :=
  let ws := words (pad (map Z_of_byte data)) in
  bytes_of_digest (fold_left compress (blocks (length ws) ws) init).

Definition Size : nat := 32.

End sha256.

(** ** encoding/base32

    [StdEncoding.WithPadding(NoPadding).EncodeToString]: the input is read
    as a bit string, most significant bit first, and cut into groups of five
    bits; a last partial group is filled with zero bits; each group selects
    one character of the RFC 4648 alphabet. Without padding no ['='] is
    appended. *)

Module base32.

Definition encodeStd : string := "ABCDEFGHIJKLMNOPQRSTUVWXYZ234567".

Definition symbol (i : N) : ascii :=
  nth (N.to_nat i) (list_ascii_of_string encodeStd) "A"%char.

Definition bits_of_byte (b : byte) : list bool :=
  let n := Byte.to_N b in
  map (N.testbit n) [7; 6; 5; 4; 3; 2; 1; 0]%N.

(** [encode acc k bits]: [acc] holds the [k < 5] bits read since the last
    character was written. *)
Fixpoint encode (acc : N) (k : nat) (bits : list bool) : list ascii :=
  match bits with
  | [] =>
      match k with
      | O => []
      | _ => [symbol (N.shiftl acc (N.of_nat (5 - k)))]
      end
  | b :: rest =>
      let acc' := (2 * acc + N.b2n b)%N in
      match k with
      | 4%nat => symbol acc' :: encode 0 0 rest
      | _ => encode acc' (S k) rest
      end
  end.

Definition EncodeToString (src : list byte) : string :=
  string_of_list_ascii (encode 0 0 (flat_map bits_of_byte src)).

End base32.

(** ** strings.TrimSpace

    Removes every leading and every trailing white-space rune, as defined by
    Unicode. The white-space runes and their UTF-8 encodings are
    U+0009..U+000D and U+0020 (one byte), U+0085 and U+00A0 ([C2 85],
    [C2 A0]), U+1680 ([E1 9A 80]), U+2000..U+200A, U+2028, U+2029, U+202F
    ([E2 80 xx]), U+205F ([E2 81 9F]) and U+3000 ([E3 80 80]). An encoding
    of a rune is unique and starts with a byte that continues no other rune,
    so a rune is recognised by its bytes, forwards as well as backwards. *)

Module strings.

Definition asciiSpace (c : N) : bool :=
  ((9 <=? c) && (c <=? 13) || (c =? 32))%N.

Definition twoByteSpace (c d : N) : bool :=
  ((c =? 0xC2) && ((d =? 0x85) || (d =? 0xA0)))%N.

Definition threeByteSpace (c d e : N) : bool :=
  ((c =? 0xE1) && (d =? 0x9A) && (e =? 0x80)
   || (c =? 0xE2) && (d =? 0x80)
      && ((0x80 <=? e) && (e <=? 0x8A) || (e =? 0xA8) || (e =? 0xA9) || (e =? 0xAF))
   || (c =? 0xE2) && (d =? 0x81) && (e =? 0x9F)
   || (c =? 0xE3) && (d =? 0x80) && (e =? 0x80))%N.

(** Width in bytes of the white-space rune the bytes start with, [0] when
    they start with none. *)
Definition spaceWidth (s : list ascii) : nat :=
  match map N_of_ascii (firstn 3 s) with
  | [c] => if asciiSpace c then 1 else 0
  | [c; d] => if asciiSpace c then 1 else if twoByteSpace c d then 2 else 0
  | c :: d :: e :: _ =>
      if asciiSpace c then 1
      else if twoByteSpace c d then 2
      else if threeByteSpace c d e then 3 else 0
  | [] => 0
  end%nat.

(** The same for the rune the bytes end with; [r] is the byte sequence
    reversed, so its head is the last byte. *)
Definition lastSpaceWidth (r : list ascii) : nat :=
  match map N_of_ascii (firstn 3 r) with
  | [c] => if asciiSpace c then 1 else 0
  | [c; d] => if asciiSpace c then 1 else if twoByteSpace d c then 2 else 0
  | c :: d :: e :: _ =>
      if asciiSpace c then 1
      else if twoByteSpace d c then 2
      else if threeByteSpace e d c then 3 else 0
  | [] => 0
  end%nat.

(** Drops white-space runes, recognised by [width], from the head of [s];
    every round drops at least one byte, so [length s] rounds are enough. *)
Fixpoint trimWith (width : list ascii -> nat) (fuel : nat) (s : list ascii) : list ascii :=
  match fuel with
  | O => s
  | S fuel' =>
      match width s with
      | O => s
      | w => trimWith width fuel' (skipn w s)
      end
  end.

Definition TrimSpace (s : string) : string :=
  let l := list_ascii_of_string s in
  let l := trimWith spaceWidth (length l) l in
  let r := rev l in
  string_of_list_ascii (rev (trimWith lastSpaceWidth (length r) r)).

End strings.

(** ** Errors

    The sentinel errors of both packages, of [database/sql] and of
    [golang.org/x/crypto/bcrypt], and the opaque failures of the
    collaborators (database driver, entropy source). [Wrapf] is
    [fmt.Errorf("...: %w", err)]. [ErrNilDereference] stands for the
    run-time panic of a dereferenced [nil]; no operation below reaches
    it. *)

Inductive error : Type :=
| ErrTokenNotFound
| ErrTokenExpired
| ErrInvalidScope
| ErrUserNotFound
| ErrUserAlreadyExists
| ErrInvalidUsername
| ErrInvalidPassword
| ErrUserNotApproved
| ErrUnauthorized
| ErrUserAlreadyApproved
| ErrNoRows
| ErrUniqueViolation
| ErrDriver (code : nat)
| ErrEntropy (code : nat)
| ErrInvalidRowCount
| ErrMismatchedHashAndPassword
| ErrHashTooShort
| ErrBcrypt (code : nat)
| ErrNilDereference
| Wrapf (msg : string) (cause : error).

Fixpoint error_eqb (a b : error) : bool :=
  match a, b with
  | ErrTokenNotFound, ErrTokenNotFound
  | ErrTokenExpired, ErrTokenExpired
  | ErrInvalidScope, ErrInvalidScope
  | ErrUserNotFound, ErrUserNotFound
  | ErrUserAlreadyExists, ErrUserAlreadyExists
  | ErrInvalidUsername, ErrInvalidUsername
  | ErrInvalidPassword, ErrInvalidPassword
  | ErrUserNotApproved, ErrUserNotApproved
  | ErrUnauthorized, ErrUnauthorized
  | ErrUserAlreadyApproved, ErrUserAlreadyApproved
  | ErrNoRows, ErrNoRows
  | ErrUniqueViolation, ErrUniqueViolation
  | ErrInvalidRowCount, ErrInvalidRowCount
  | ErrMismatchedHashAndPassword, ErrMismatchedHashAndPassword
  | ErrHashTooShort, ErrHashTooShort
  | ErrNilDereference, ErrNilDereference => true
  | ErrDriver m, ErrDriver n
  | ErrEntropy m, ErrEntropy n
  | ErrBcrypt m, ErrBcrypt n => Nat.eqb m n
  | Wrapf m c, Wrapf n d => String.eqb m n && error_eqb c d
  | _, _ => false
  end.

(** [errors.Is]: the error itself or one of the errors it wraps. *)
Fixpoint errors_Is (err target : error) : bool :=
  error_eqb err target ||
  match err with
  | Wrapf _ cause => errors_Is cause target
  | _ => false
  end.

(** ** The world: database, wall clock, entropy source *)

Record TokenRow := {
  t_hash : list byte;
  t_user_id : Z;
  t_expiry : Z;
  t_scope : string
}.

Record UserRow := {
  u_id : Z;
  u_username : string;
  u_password_hash : list byte;
  u_created_at : Z;
  u_approved_at : option Z;
  u_approved_by : option Z;
  u_is_admin : bool;
  u_status : string
}.

(** The statements the repositories send to the database. *)
Inductive Stmt : Type :=
| InsertToken (row : TokenRow)
| SelectTokenByHash (hash : list byte)
| DeleteTokensOfUser (userID : Z) (scope : string)
| DeleteTokenOfHash (hash : list byte)
| InsertUser (username : string) (password_hash : list byte) (status : string) (is_admin : bool)
| SelectUserByUsername (username : string)
| SelectUsers (limit offset : Z)
| SelectPendingUsers (limit offset : Z).

(** One reading of the entropy source: an endless run of bytes, of which a
    read takes as many as it asks for, or a failure. *)
Inductive Draw : Type :=
| Bytes (run : nat -> byte)
| Exhausted (e : error).

Record World := {
  tokens : list TokenRow;            (* table tokens *)
  users : list UserRow;              (* table users *)
  serial : Z;                        (* last value of the sequence behind users.id *)
  wall : nat -> Z;                   (* successive readings of the wall clock *)
  ticks : nat;                       (* readings taken so far *)
  entropy : nat -> Draw;             (* successive reads of the entropy source *)
  draws : nat;                       (* reads made so far *)
  driver : nat -> option error;      (* [driver n]: the failure, if any, of the n-th statement *)
  journal : list Stmt                (* statements sent so far, oldest first *)
}.

Definition with_tokens (f : list TokenRow -> list TokenRow) (w : World) : World :=
  {| tokens := f (tokens w); users := users w; serial := serial w; wall := wall w; ticks := ticks w;
     entropy := entropy w; draws := draws w; driver := driver w; journal := journal w |}.

Definition with_users (f : list UserRow -> list UserRow) (w : World) : World :=
  {| tokens := tokens w; users := f (users w); serial := serial w; wall := wall w; ticks := ticks w;
     entropy := entropy w; draws := draws w; driver := driver w; journal := journal w |}.

Definition with_serial (n : Z) (w : World) : World :=
  {| tokens := tokens w; users := users w; serial := n; wall := wall w; ticks := ticks w;
     entropy := entropy w; draws := draws w; driver := driver w; journal := journal w |}.

Definition with_ticks (n : nat) (w : World) : World :=
  {| tokens := tokens w; users := users w; serial := serial w; wall := wall w; ticks := n;
     entropy := entropy w; draws := draws w; driver := driver w; journal := journal w |}.

Definition with_draws (n : nat) (w : World) : World :=
  {| tokens := tokens w; users := users w; serial := serial w; wall := wall w; ticks := ticks w;
     entropy := entropy w; draws := n; driver := driver w; journal := journal w |}.

Definition with_journal (j : list Stmt) (w : World) : World :=
  {| tokens := tokens w; users := users w; serial := serial w; wall := wall w; ticks := ticks w;
     entropy := entropy w; draws := draws w; driver := driver w; journal := j |}.

(** Computations that read and change the world. *)
Definition IO (A : Type) : Type := World -> A * World.

Definition ret {A : Type} (a : A) : IO A := fun w => (a, w).

Definition bind {A B : Type} (m : IO A) (k : A -> IO B) : IO B :=
  fun w => let (a, w') := m w in k a w'.

Declare Scope io_scope.
Delimit Scope io_scope with io.
Notation "x <- m ;; k" := (bind m (fun x => k))
  (at level 61, m at next level, right associativity) : io_scope.
Notation "' p <- m ;; k" := (bind m (fun p => k))
  (at level 61, p pattern, m at next level, right associativity) : io_scope.
Local Open Scope io_scope.

Definition get : IO World := fun w => (w, w).

Definition modify (f : World -> World) : IO unit := fun w => (tt, f w).

(** [time.Now()]. *)
Definition time_Now : IO Z :=
  fun w => (wall w (ticks w), with_ticks (S (ticks w)) w).

(** [rand.Read(b)] for a buffer of [n] bytes: the filled buffer, or the
    error of the source and the buffer as [make] left it. *)
Definition rand_Read (n : nat) : IO (list byte * option error) :=
  fun w =>
    let w' := with_draws (S (draws w)) w in
    match entropy w (draws w) with
    | Bytes run => ((map run (seq 0 n), None), w')
    | Exhausted e => ((repeat x00 n, Some e), w')
    end.

(** Sends one statement: it is entered in the journal, and the driver
    says whether it reached the database. *)
Definition send (q : Stmt) : IO (option error) :=
  fun w => (driver w (length (journal w)), with_journal (journal w ++ [q]) w).

(** The next reading of the clock and the fate of the next statement. *)
Definition now (w : World) : Z := wall w (ticks w).
Definition delivers (w : World) : Prop := driver w (length (journal w)) = None.

(** ** Package token *)

Module token.

(** token.go *)

Definition ScopeAuth : string := "authentication".
Definition ScopeDeploy : string := "deployment".
Definition ScopeRefresh : string := "refresh".

Definition Nanosecond : Z := 1.
Definition Second : Z := 1000000000 * Nanosecond.
Definition Hour : Z := 3600 * Second.

Definition AuthTokenDuration : Z := 2 * Hour.
Definition DeployTokenDuration : Z := 4 * Hour.
Definition RefreshTokenDuration : Z := 7 * 24 * Hour.

Record Token := {
  PlainText : string;
  Hash : list byte;
  UserID : Z;
  Expiry : Z;
  Scope : string
}.

Definition GenerateToken (userID : Z) (ttl : Z) (scope : string)
  : IO (option Token * option error) :=
  t <- time_Now ;;
  '(emptyByte, err) <- rand_Read 32 ;;
  match err with
  | Some e => ret (None, Some e)
  | None =>
      let plainText := base32.EncodeToString emptyByte in
      let hash := sha256.Sum256 (list_byte_of_string plainText) in
      ret (Some {| PlainText := plainText; Hash := hash; UserID := userID;
                   Expiry := t + ttl; Scope := scope |}, None)
  end.

(** token_repository.go *)

Record TokenRepository := {
  Insert : Token -> IO (option error);
  GetByHash : list byte -> IO (option Token * option error);
  CreateNewToken : Z -> Z -> string -> IO (option Token * option error);
  DeleteAllTokensForUser : Z -> string -> IO (option error);
  DeleteTokenByHash : list byte -> IO (option error)
}.

Definition row_of (token : Token) : TokenRow :=
  {| t_hash := Hash token; t_user_id := UserID token;
     t_expiry := Expiry token; t_scope := Scope token |}.

(** What [Scan] fills in: the plaintext is no column of the table. *)
Definition scan (r : TokenRow) : Token :=
  {| PlainText := EmptyString; Hash := t_hash r; UserID := t_user_id r;
     Expiry := t_expiry r; Scope := t_scope r |}.

Definition has_hash (hash : list byte) (r : TokenRow) : bool := bytes_eqb (t_hash r) hash.

Definition in_slot (userID : Z) (scope : string) (r : TokenRow) : bool :=
  String.eqb (t_scope r) scope && (t_user_id r =? userID).

(** The rows of a user's slot, and the rows outside it. *)
Definition slot (userID : Z) (scope : string) (rows : list TokenRow) : list TokenRow :=
  filter (in_slot userID scope) rows.

Definition others (userID : Z) (scope : string) (rows : list TokenRow) : list TokenRow :=
  filter (fun r => negb (in_slot userID scope r)) rows.

(** Modelled from the spec: the schema of table [tokens] is not among the
    sources; its key is the hash, so that an insert of a hash that is
    already there fails and changes nothing. *)
Definition insert_row (r : TokenRow) : IO (option error) :=
  w <- get ;;
  if existsb (has_hash (t_hash r)) (tokens w)
  then ret (Some ErrUniqueViolation)
  else _ <- modify (with_tokens (fun rows => rows ++ [r])) ;; ret None.

Definition TokenRepo_Insert (token : Token) : IO (option error) :=
  err <- send (InsertToken (row_of token)) ;;
  match err with
  | Some e => ret (Some e)
  | None =>
      err <- insert_row (row_of token) ;;
      match err with
      | Some e => ret (Some e)
      | None => ret None
      end
  end.

Definition TokenRepo_CreateNewToken (userID : Z) (ttl : Z) (scope : string)
  : IO (option Token * option error) :=
  '(token, err) <- GenerateToken userID ttl scope ;;
  match err with
  | Some e => ret (None, Some e)
  | None =>
      match token with
      | None => ret (None, Some ErrNilDereference)
      | Some tk =>
          err <- TokenRepo_Insert tk ;;
          ret (Some tk, err)
      end
  end.

Definition TokenRepo_DeleteAllTokensForUser (userID : Z) (scope : string)
  : IO (option error) :=
  err <- send (DeleteTokensOfUser userID scope) ;;
  match err with
  | Some e => ret (Some e)
  | None =>
      _ <- modify (with_tokens (others userID scope)) ;;
      ret None
  end.

Definition TokenRepo_DeleteTokenByHash (hash : list byte) : IO (option error) :=
  err <- send (DeleteTokenOfHash hash) ;;
  match err with
  | Some e => ret (Some e)
  | None =>
      _ <- modify (with_tokens (filter (fun r => negb (has_hash hash r)))) ;;
      ret None
  end.

Definition TokenRepo_GetByHash (hash : list byte) : IO (option Token * option error) :=
  err <- send (SelectTokenByHash hash) ;;
  match err with
  | Some e => ret (None, Some e)
  | None =>
      w <- get ;;
      match find (has_hash hash) (tokens w) with
      | None => ret (None, Some ErrNoRows)
      | Some r => ret (Some (scan r), None)
      end
  end.

Definition TokenRepo : TokenRepository :=
  {| Insert := TokenRepo_Insert;
     GetByHash := TokenRepo_GetByHash;
     CreateNewToken := TokenRepo_CreateNewToken;
     DeleteAllTokensForUser := TokenRepo_DeleteAllTokensForUser;
     DeleteTokenByHash := TokenRepo_DeleteTokenByHash |}.

(** token_service.go *)

Record TokenService := { repo : TokenRepository }.

Definition NewTokenService (repo : TokenRepository) : TokenService := {| repo := repo |}.

Definition CreateAuthToken (s : TokenService) (userID : Z) (ttl : Z)
  : IO (option Token * option error) :=
  err <- DeleteAllTokensForUser (repo s) userID ScopeAuth ;;
  match err with
  | Some e => ret (None, Some e)
  | None =>
      '(token, err) <- CreateNewToken (repo s) userID ttl ScopeAuth ;;
      match err with
      | Some e => ret (None, Some e)
      | None => ret (token, None)
      end
  end.

Definition ValidateToken (s : TokenService) (plaintext : string) (scope : string)
  : IO (option Token * option error) :=
  let hash := sha256.Sum256 (list_byte_of_string plaintext) in
  '(token, err) <- GetByHash (repo s) hash ;;
  match err with
  | Some _ => ret (None, Some ErrTokenNotFound)
  | None =>
      match token with
      | None => ret (None, Some ErrNilDereference)
      | Some tk =>
          t <- time_Now ;;
          if t >? Expiry tk then ret (None, Some ErrTokenExpired)
          else if negb (String.eqb (Scope tk) scope) then ret (None, Some ErrInvalidScope)
          else ret (Some tk, None)
      end
  end.

Definition RevokeToken (s : TokenService) (hash : list byte) : IO (option error) :=
  DeleteTokenByHash (repo s) hash.

Definition RevokeAllUserTokens (s : TokenService) (userID : Z) (scope : string)
  : IO (option error) :=
  DeleteAllTokensForUser (repo s) userID scope.

Definition CreateAuthTokenWithRefresh (s : TokenService) (userID : Z)
  : IO (option Token * option Token * option error) :=
  '(authToken, err) <- CreateNewToken (repo s) userID AuthTokenDuration ScopeAuth ;;
  match err with
  | Some e => ret (None, None, Some e)
  | None =>
      '(refreshToken, err) <- CreateNewToken (repo s) userID RefreshTokenDuration ScopeRefresh ;;
      match err with
      | Some e => ret (None, None, Some e)
      | None => ret (authToken, refreshToken, None)
      end
  end.

Definition RefreshAuthToken (s : TokenService) (refreshTokenPlaintext : string)
  : IO (option Token * option error) :=
  '(refreshToken, err) <- ValidateToken s refreshTokenPlaintext ScopeRefresh ;;
  match err with
  | Some e => ret (None, Some e)
  | None =>
      match refreshToken with
      | None => ret (None, Some ErrNilDereference)
      | Some rt =>
          '(authToken, err) <- CreateNewToken (repo s) (UserID rt) AuthTokenDuration ScopeAuth ;;
          match err with
          | Some e => ret (None, Some e)
          | None => ret (authToken, None)
          end
      end
  end.

Definition CreateDeployToken (s : TokenService) (userID : Z)
  : IO (option Token * option error) :=
  err <- DeleteAllTokensForUser (repo s) userID ScopeDeploy ;;
  match err with
  | Some e => ret (None, Some e)
  | None =>
      '(token, err) <- CreateNewToken (repo s) userID DeployTokenDuration ScopeDeploy ;;
      match err with
      | Some e => ret (None, Some e)
      | None => ret (token, None)
      end
  end.

(** The service of the server: the token service over the SQL repository. *)
Definition service : TokenService := NewTokenService TokenRepo.

(** *** Vocabulary of the properties *)

(** The token that [GenerateToken] makes of the bytes [run] it has read. *)
Definition mint (run : nat -> byte) (userID expiry : Z) (scope : string) : Token :=
  let plainText := base32.EncodeToString (map run (seq 0 32)) in
  {| PlainText := plainText;
     Hash := sha256.Sum256 (list_byte_of_string plainText);
     UserID := userID; Expiry := expiry; Scope := scope |}.

(** What an operation [op] that first evicts the tokens of the slot
    [(userID, scope)] and then issues a token of life time [ttl] does in
    a world [w], by what its collaborators do: the driver may lose the
    DELETE, the entropy source may fail, the driver may lose the INSERT
    or the table may refuse it, or all of them work. *)
Definition evicts_then_issues (op : IO (option Token * option error))
    (userID ttl : Z) (scope : string) (w : World) : Prop :=
  let result := fst (op w) in
  let w' := snd (op w) in
  let sent := length (journal w) in
  (forall e, driver w sent = Some e ->
     result = (None, Some e) /\ tokens w' = tokens w /\ draws w' = draws w /\
     journal w' = journal w ++ [DeleteTokensOfUser userID scope]) /\
  (forall e, driver w sent = None -> entropy w (draws w) = Exhausted e ->
     result = (None, Some e) /\ tokens w' = others userID scope (tokens w) /\
     journal w' = journal w ++ [DeleteTokensOfUser userID scope]) /\
  (forall run, driver w sent = None -> entropy w (draws w) = Bytes run ->
     let tk := mint run userID (now w + ttl) scope in
     journal w' = journal w ++ [DeleteTokensOfUser userID scope; InsertToken (row_of tk)] /\
     (forall e, driver w (S sent) = Some e ->
        result = (None, Some e) /\ tokens w' = others userID scope (tokens w)) /\
     (driver w (S sent) = None ->
      existsb (has_hash (Hash tk)) (others userID scope (tokens w)) = true ->
        result = (None, Some ErrUniqueViolation) /\
        tokens w' = others userID scope (tokens w)) /\
     (driver w (S sent) = None ->
      existsb (has_hash (Hash tk)) (others userID scope (tokens w)) = false ->
        result = (Some tk, None) /\
        tokens w' = others userID scope (tokens w) ++ [row_of tk] /\
        slot userID scope (tokens w') = [row_of tk])).

End token.

(** ** golang.org/x/crypto/bcrypt

    The library is no part of the repository: its two functions are taken
    as given. [GenerateFromPassword password cost salt] is handed the read
    of the entropy source it salts the hash with;
    [CompareHashAndPassword hashedPassword password] is [None] on a match,
    [ErrMismatchedHashAndPassword] on a password that is not the hashed
    one, another error on a hash it cannot read. *)

Module bcrypt.

Record Impl := {
  GenerateFromPassword : list byte -> Z -> Draw -> list byte * option error;
  CompareHashAndPassword : list byte -> list byte -> option error
}.

End bcrypt.

(** ** Package user *)

Module user.

Section WithBcrypt.

Variable B : bcrypt.Impl.

(** The password holder. *)

Record password := {
  plainText : option string;
  hash : list byte
}.

Definition bcrypt_GenerateFromPassword (pw : list byte) (cost : Z)
  : IO (list byte * option error) :=
  fun w =>
    (bcrypt.GenerateFromPassword B pw cost (entropy w (draws w)),
     with_draws (S (draws w)) w).

Definition password_Set (p : password) (plainTextPassword : string)
  : IO (password * option error) :=
  '(h, err) <- bcrypt_GenerateFromPassword (list_byte_of_string plainTextPassword) 12 ;;
  match err with
  | Some e => ret (p, Some e)
  | None => ret ({| plainText := Some plainTextPassword; hash := h |}, None)
  end.

Definition password_Matches (p : password) (plainTextPassword : string)
  : bool * option error :=
  match bcrypt.CompareHashAndPassword B (hash p) (list_byte_of_string plainTextPassword) with
  | Some err =>
      if errors_Is err ErrMismatchedHashAndPassword then (false, None)
      else (false, Some err)
  | None => (true, None)
  end.

Definition password_ClearPlainText (p : password) : password :=
  {| plainText := None; hash := hash p |}.

Definition password_IsSet (p : password) : bool :=
  match plainText p with
  | Some _ => true
  | None => (0 <? length (hash p))%nat
  end.

Record User := {
  ID : Z;
  Username : string;
  PasswordHash : password;
  CreatedAt : Z;
  ApprovedAt : option Z;
  ApprovedBy : option Z;
  IsAdmin : bool;
  Status : string
}.

Definition with_PasswordHash (p : password) (u : User) : User :=
  {| ID := ID u; Username := Username u; PasswordHash := p; CreatedAt := CreatedAt u;
     ApprovedAt := ApprovedAt u; ApprovedBy := ApprovedBy u; IsAdmin := IsAdmin u;
     Status := Status u |}.

(** The zero [time.Time], January 1 of year 1, in nanoseconds since 1970. *)
Definition time_zero : Z := - 62135596800 * 1000000000.

(** The user repository: the methods the operations below call. *)

Record UserStore := {
  Store_CreateUser : User -> IO (User * option error);
  Store_GetUserByUsername : string -> IO (option User * option error);
  Store_ListUsers : Z -> Z -> IO (list User * option error);
  Store_ListPendingUsers : Z -> Z -> IO (list User * option error)
}.

Definition scan (r : UserRow) : User :=
  {| ID := u_id r; Username := u_username r;
     PasswordHash := {| plainText := None; hash := u_password_hash r |};
     CreatedAt := u_created_at r; ApprovedAt := u_approved_at r;
     ApprovedBy := u_approved_by r; IsAdmin := u_is_admin r; Status := u_status r |}.

(** Modelled from the spec: the schema of table [users] is not among the
    sources. The database fills in [id] from a sequence and [created_at]
    with the time of the insert; the columns the statement does not name
    ([approved_at], [approved_by]) are null. *)
Definition insert_user (username : string) (password_hash : list byte)
    (status : string) (is_admin : bool) : IO (Z * Z) :=
  t <- time_Now ;;
  w <- get ;;
  let id := serial w + 1 in
  let row := {| u_id := id; u_username := username; u_password_hash := password_hash;
                u_created_at := t; u_approved_at := None; u_approved_by := None;
                u_is_admin := is_admin; u_status := status |} in
  _ <- modify (fun w => with_users (fun rows => rows ++ [row]) (with_serial id w)) ;;
  ret (id, t).

Definition UserRepo_CreateUser (user : User) : IO (User * option error) :=
  err <- send (InsertUser (Username user) (hash (PasswordHash user)) (Status user) (IsAdmin user)) ;;
  match err with
  | Some e => ret (user, Some e)
  | None =>
      '(id, created_at) <- insert_user (Username user) (hash (PasswordHash user))
                                       (Status user) (IsAdmin user) ;;
      ret ({| ID := id; Username := Username user; PasswordHash := PasswordHash user;
              CreatedAt := created_at; ApprovedAt := ApprovedAt user;
              ApprovedBy := ApprovedBy user; IsAdmin := IsAdmin user;
              Status := Status user |}, None)
  end.

Definition UserRepo_GetUserByUsername (username : string)
  : IO (option User * option error) :=
  err <- send (SelectUserByUsername username) ;;
  match err with
  | Some e => ret (None, Some e)
  | None =>
      w <- get ;;
      match find (fun r => String.eqb (u_username r) username) (users w) with
      | None => ret (None, None)
      | Some r => ret (Some (scan r), None)
      end
  end.

(** [ORDER BY created_at DESC]: the rows by falling time of creation; rows
    of one and the same time stay in the order of the table. *)
Fixpoint place (r : UserRow) (sorted : list UserRow) : list UserRow :=
  match sorted with
  | [] => [r]
  | x :: rest =>
      if u_created_at x <? u_created_at r then r :: sorted else x :: place r rest
  end.

Definition newest_first (rows : list UserRow) : list UserRow :=
  fold_left (fun sorted r => place r sorted) rows [].

(** [LIMIT $1 OFFSET $2]; the database refuses a negative row count. *)
Definition page (limit offset : Z) (rows : list UserRow) : list User * option error :=
  if (limit <? 0) || (offset <? 0) then ([], Some ErrInvalidRowCount)
  else (map scan (firstn (Z.to_nat limit) (skipn (Z.to_nat offset) rows)), None).

Definition UserRepo_ListUsers (limit offset : Z) : IO (list User * option error) :=
  err <- send (SelectUsers limit offset) ;;
  match err with
  | Some e => ret ([], Some e)
  | None =>
      w <- get ;;
      ret (page limit offset (newest_first (users w)))
  end.

Definition UserRepo_ListPendingUsers (limit offset : Z) : IO (list User * option error) :=
  err <- send (SelectPendingUsers limit offset) ;;
  match err with
  | Some e => ret ([], Some e)
  | None =>
      w <- get ;;
      ret (page limit offset
             (newest_first
                (filter (fun r => match u_approved_at r with None => true | Some _ => false end)
                        (users w))))
  end.

Definition UserRepo : UserStore :=
  {| Store_CreateUser := UserRepo_CreateUser;
     Store_GetUserByUsername := UserRepo_GetUserByUsername;
     Store_ListUsers := UserRepo_ListUsers;
     Store_ListPendingUsers := UserRepo_ListPendingUsers |}.

(** The user service. *)

Record UserService := { repo : UserStore }.

Definition NewUserService (repo : UserStore) : UserService := {| repo := repo |}.

(** The character classes of the regular expressions. *)
Definition upper (c : ascii) : bool := let n := N_of_ascii c in ((65 <=? n) && (n <=? 90))%N.
Definition lower (c : ascii) : bool := let n := N_of_ascii c in ((97 <=? n) && (n <=? 122))%N.
Definition digit (c : ascii) : bool := let n := N_of_ascii c in ((48 <=? n) && (n <=? 57))%N.

(** [[a-zA-Z0-9_-]] *)
Definition nameChar (c : ascii) : bool :=
  lower c || upper c || digit c || Ascii.eqb c "_" || Ascii.eqb c "-".

(** [regexp.MustCompile(`^[a-zA-Z0-9_-]+$`).MatchString] *)
Definition validUsername_MatchString (s : string) : bool :=
  match list_ascii_of_string s with
  | [] => false
  | l => forallb nameChar l
  end.

(** [regexp.MustCompile(cls).MatchString] for a single class [cls]: some
    byte of the string is in the class. *)
Definition class_MatchString (cls : ascii -> bool) (s : string) : bool :=
  existsb cls (list_ascii_of_string s).

Definition validateUsername (s : UserService) (username : string) : option error :=
  let username := strings.TrimSpace username in
  if (String.length username <? 3)%nat then Some ErrInvalidUsername
  else if (50 <? String.length username)%nat then Some ErrInvalidUsername
  else if negb (validUsername_MatchString username) then Some ErrInvalidUsername
  else None.

Definition validatePassword (s : UserService) (password : string) : option error :=
  if (String.length password <? 8)%nat then Some ErrInvalidPassword
  else if (100 <? String.length password)%nat then Some ErrInvalidPassword
  else
    let hasUpper := class_MatchString upper password in
    let hasLower := class_MatchString lower password in
    let hasDigit := class_MatchString digit password in
    if negb hasUpper || negb hasLower || negb hasDigit then Some ErrInvalidPassword
    else None.

Definition CreateUser (s : UserService) (username password : string)
  : IO (option User * option error) :=
  match validateUsername s username with
  | Some e => ret (None, Some e)
  | None =>
  match validatePassword s password with
  | Some e => ret (None, Some e)
  | None =>
      '(existingUser, err) <- Store_GetUserByUsername (repo s) username ;;
      match err with
      | Some e => ret (None, Some e)
      | None =>
      match existingUser with
      | Some _ => ret (None, Some ErrUserAlreadyExists)
      | None =>
          let user := {| ID := 0; Username := username;
                         PasswordHash := {| plainText := None; hash := [] |};
                         CreatedAt := time_zero; ApprovedAt := None; ApprovedBy := None;
                         IsAdmin := false; Status := "pending" |} in
          '(p, err) <- password_Set (PasswordHash user) password ;;
          match err with
          | Some e => ret (None, Some (Wrapf "failed to hash password" e))
          | None =>
              let user := with_PasswordHash p user in
              '(user, err) <- Store_CreateUser (repo s) user ;;
              match err with
              | Some e => ret (None, Some e)
              | None =>
                  let user := with_PasswordHash (password_ClearPlainText (PasswordHash user)) user in
                  ret (Some user, None)
              end
          end
      end
      end
  end
  end.

Definition AuthenticateUser (s : UserService) (username password : string)
  : IO (option User * option error) :=
  '(user, err) <- Store_GetUserByUsername (repo s) username ;;
  match err with
  | Some e => ret (None, Some e)
  | None =>
  match user with
  | None => ret (None, Some ErrUserNotFound)
  | Some user =>
      let '(matches, err) := password_Matches (PasswordHash user) password in
      match err with
      | Some e => ret (None, Some e)
      | None =>
          if negb matches then ret (None, Some ErrUnauthorized)
          else
            match ApprovedAt user with
            | None => ret (None, Some ErrUserNotApproved)
            | Some _ => ret (Some user, None)
            end
      end
  end
  end.

Definition ListUsers (s : UserService) (limit offset : Z) : IO (list User * option error) :=
  let limit := if limit <=? 0 then 10 else limit in
  let limit := if limit >? 100 then 100 else limit in
  let offset := if offset <? 0 then 0 else offset in
  Store_ListUsers (repo s) limit offset.

Definition ListPendingUsers (s : UserService) (limit offset : Z)
  : IO (list User * option error) :=
  let limit := if limit <=? 0 then 10 else limit in
  let limit := if limit >? 100 then 100 else limit in
  let offset := if offset <? 0 then 0 else offset in
  Store_ListPendingUsers (repo s) limit offset.

(** The service of the server: the user service over the SQL repository. *)
Definition service : UserService := NewUserService UserRepo.

End WithBcrypt.

End user.

(** ** Sample data

    Concrete collaborators on which the operations are run in the examples
    further down. The theorems hold for every world and every
    implementation of bcrypt; only the examples use these. *)

Module sample.

(** An entropy source that never fails: the [k]-th read yields the bytes
    [37 k + 11 i + 5] modulo 256. *)
Definition run (k i : nat) : byte := byte_of_Z (Z.of_nat (37 * k + 11 * i + 5)).

(** A clock that starts at 1700000000 seconds and moves on by a minute
    from reading to reading. *)
Definition clock (n : nat) : Z := (1700000000 + 60 * Z.of_nat n) * token.Second.

(** Empty tables, a driver that delivers every statement. *)
Definition world : World :=
  {| tokens := []; users := []; serial := 0; wall := clock; ticks := 0;
     entropy := fun k => Bytes (run k); draws := 0;
     driver := fun _ => None; journal := [] |}.

(** The same, but the driver loses the statement of index [n]. *)
Definition world_losing (n : nat) : World :=
  {| tokens := []; users := []; serial := 0; wall := clock; ticks := 0;
     entropy := fun k => Bytes (run k); draws := 0;
     driver := fun k => if Nat.eqb k n then Some (ErrDriver 57) else None;
     journal := [] |}.

(** The same as [world], but the entropy source fails from the read of
    index [n] on. *)
Definition world_drying (n : nat) : World :=
  {| tokens := []; users := []; serial := 0; wall := clock; ticks := 0;
     entropy := fun k => if (k <? n)%nat then Bytes (run k) else Exhausted (ErrEntropy 5);
     draws := 0; driver := fun _ => None; journal := [] |}.

(** The world after user 7 has logged in once: the table holds one
    authentication token and one refresh token; these are the plaintexts
    that were handed out. *)
Definition logged_in : World :=
  snd (token.CreateAuthTokenWithRefresh token.service 7 world).

Definition auth_plaintext : string :=
  "AUIBWJRRHRDVEXLION7ITFE7VK24BS6W4HWPOAQNDARS4OKEJ5NA".

Definition refresh_plaintext : string :=
  "FI2UAS2WMFWHPAUNTCR25OOEZ7NOL4H3AYIRYJZSHVEFGXTJOR7Q".

(** The same world three hours later: the authentication token has
    expired, the refresh token has not. *)
Definition three_hours_later : World := with_ticks 180 logged_in.

(** A stand-in for bcrypt with the shape of the library: a salted digest
    behind a version-and-cost prefix, SHA-256 in the place of the Blowfish
    key schedule. Passwords of more than 72 bytes are refused, as the
    library refuses them. *)
Definition prefix : list byte := list_byte_of_string "$2a$12$".

Definition salted (salt pw : list byte) : list byte :=
  prefix ++ salt ++ sha256.Sum256 (salt ++ pw).

Definition generate (pw : list byte) (cost : Z) (d : Draw) : list byte * option error :=
  if (72 <? length pw)%nat then ([], Some (ErrBcrypt 72))
  else
    match d with
    | Bytes r => (salted (map r (seq 0 16)) pw, None)
    | Exhausted e => ([], Some e)
    end.

Definition compare (hashed pw : list byte) : option error :=
  if (length hashed <? 55)%nat then Some ErrHashTooShort
  else if bytes_eqb hashed (salted (firstn 16 (skipn 7 hashed)) pw) then None
  else Some ErrMismatchedHashAndPassword.

Definition bcrypt : bcrypt.Impl :=
  {| bcrypt.GenerateFromPassword := generate;
     bcrypt.CompareHashAndPassword := compare |}.

(** The sample world after a registration, and the same after an
    administrator, user 1, has approved the account. *)
Definition registered : World :=
  snd (user.CreateUser bcrypt user.service "user_name-1" "Valid1Pass" world).

Definition approve (r : UserRow) : UserRow :=
  {| u_id := u_id r; u_username := u_username r; u_password_hash := u_password_hash r;
     u_created_at := u_created_at r; u_approved_at := Some (clock 5);
     u_approved_by := Some 1; u_is_admin := u_is_admin r; u_status := u_status r |}.

Definition approved : World := with_users (map approve) registered.

End sample.

From Stdlib Require Import Sorting.Sorted.

(** ** Further vocabulary of the properties *)

Module slots.

(** No slot holds more than one row. *)
Definition single (rows : list TokenRow) : Prop :=
  forall (userID : Z) (scope : string),
    (length (token.slot userID scope rows) <= 1)%nat.

End slots.

(** Newer rows first. *)
Definition newer_first (a b : UserRow) : Prop := u_created_at b <= u_created_at a.

(** ** Package user, the rest of the repository and of the service

    The statements of the remaining methods of the user repository have a
    journal and a driver of their own, beside the world: [fate n] is the
    failure, if any, of the [n]-th of these statements. The operations
    below are written over the SQL repository, the one store the server
    has. *)

Module account.

Inductive Statement : Type :=
| SelectUserByID (id : Z)
| UpdateUserByID (username status : string) (is_admin : bool)
                 (approved_at approved_by : option Z) (id : Z)
| DeleteUserOfUsername (username : string)
| ApproveUserByID (approvedBy userID : Z)
| SelectUserOfToken (hash : list byte) (scope : string) (time : Z).

Record Db := {
  world : World;
  sent : list Statement;
  fate : nat -> option error
}.

Definition DB (A : Type) : Type := Db -> A * Db.

Definition yield {A : Type} (a : A) : DB A := fun d => (a, d).

Definition chain {A B : Type} (m : DB A) (k : A -> DB B) : DB B :=
  fun d => let (a, d') := m d in k a d'.

Declare Scope db_scope.
Delimit Scope db_scope with db.
Notation "x <- m ;; k" := (chain m (fun x => k))
  (at level 61, m at next level, right associativity) : db_scope.
Notation "' p <- m ;; k" := (chain m (fun p => k))
  (at level 61, p pattern, m at next level, right associativity) : db_scope.
Local Open Scope db_scope.

(** An operation on the world, run on the world of the database. *)
Definition lift {A : Type} (m : IO A) : DB A :=
  fun d =>
    let (a, w') := m (world d) in
    (a, {| world := w'; sent := sent d; fate := fate d |}).

Definition exec (q : Statement) : DB (option error) :=
  fun d => (fate d (length (sent d)),
            {| world := world d; sent := sent d ++ [q]; fate := fate d |}).

(** The fate of the next statement. *)
Definition answers (d : Db) : Prop := fate d (length (sent d)) = None.

(** *** user_repository.go *)

Definition UserRepo_GetUserByID (id : Z) : DB (option user.User * option error) :=
  err <- exec (SelectUserByID id) ;;
  match err with
  | Some e => yield (None, Some e)
  | None =>
      w <- lift get ;;
      match find (fun r => u_id r =? id) (users w) with
      | None => yield (None, None)
      | Some r => yield (Some (user.scan r), None)
      end
  end.

(** The columns an UPDATE of a user writes; the hash of the password and
    the time of creation are not among them. *)
Definition written (u : user.User) (r : UserRow) : UserRow :=
  {| u_id := u_id r; u_username := user.Username u;
     u_password_hash := u_password_hash r; u_created_at := u_created_at r;
     u_approved_at := user.ApprovedAt u; u_approved_by := user.ApprovedBy u;
     u_is_admin := user.IsAdmin u; u_status := user.Status u |}.

Definition UserRepo_UpdateUser (u : user.User) : DB (option error) :=
  err <- exec (UpdateUserByID (user.Username u) (user.Status u) (user.IsAdmin u)
                              (user.ApprovedAt u) (user.ApprovedBy u) (user.ID u)) ;;
  match err with
  | Some e => yield (Some e)
  | None =>
      w <- lift get ;;
      let rowsAffected := length (filter (fun r => u_id r =? user.ID u) (users w)) in
      _ <- lift (modify (with_users
                   (map (fun r => if u_id r =? user.ID u then written u r else r)))) ;;
      if Nat.eqb rowsAffected 0 then yield (Some ErrNoRows) else yield None
  end.

Definition UserRepo_DeleteUserByUsername (username : string) : DB (option error) :=
  err <- exec (DeleteUserOfUsername username) ;;
  match err with
  | Some e => yield (Some e)
  | None =>
      w <- lift get ;;
      let rowsAffected :=
        length (filter (fun r => String.eqb (u_username r) username) (users w)) in
      _ <- lift (modify (with_users
                   (filter (fun r => negb (String.eqb (u_username r) username))))) ;;
      if Nat.eqb rowsAffected 0 then yield (Some ErrNoRows) else yield None
  end.

(** [CURRENT_TIMESTAMP] is a reading of the clock. *)
Definition approved (time approvedBy : Z) (r : UserRow) : UserRow :=
  {| u_id := u_id r; u_username := u_username r;
     u_password_hash := u_password_hash r; u_created_at := u_created_at r;
     u_approved_at := Some time; u_approved_by := Some approvedBy;
     u_is_admin := u_is_admin r; u_status := u_status r |}.

Definition UserRepo_ApproveUser (userID approvedBy : Z) : DB (option error) :=
  err <- exec (ApproveUserByID approvedBy userID) ;;
  match err with
  | Some e => yield (Some e)
  | None =>
      t <- lift time_Now ;;
      w <- lift get ;;
      let rowsAffected := length (filter (fun r => u_id r =? userID) (users w)) in
      _ <- lift (modify (with_users
                   (map (fun r => if u_id r =? userID then approved t approvedBy r else r)))) ;;
      if Nat.eqb rowsAffected 0 then yield (Some ErrNoRows) else yield None
  end.

(** The join of users and tokens: a user that owns a token of the hash
    and the scope whose expiry is after the time given. When several rows
    qualify, the first user of the table is the one returned. *)
Definition owns (hash : list byte) (scope : string) (time : Z) (tokens : list TokenRow)
    (r : UserRow) : bool :=
  existsb (fun t => (t_user_id t =? u_id r) && bytes_eqb (t_hash t) hash
                    && String.eqb (t_scope t) scope && (time <? t_expiry t))
          tokens.

Definition UserRepo_GetUserToken (scope tokenPlainText : string)
  : DB (option user.User * option error) :=
  let tokenHash := sha256.Sum256 (list_byte_of_string tokenPlainText) in
  t <- lift time_Now ;;
  err <- exec (SelectUserOfToken tokenHash scope t) ;;
  match err with
  | Some e => yield (None, Some e)
  | None =>
      w <- lift get ;;
      match find (owns tokenHash scope t (tokens w)) (users w) with
      | None => yield (None, None)
      | Some r => yield (Some (user.scan r), None)
      end
  end.

(** *** The user service *)

(** [errors.New]: an error that is none of the sentinels. *)
Inductive failure : Type :=
| Failed (e : error)
| errors_New (msg : string).

Definition with_IsAdmin (b : bool) (u : user.User) : user.User :=
  {| user.ID := user.ID u; user.Username := user.Username u;
     user.PasswordHash := user.PasswordHash u; user.CreatedAt := user.CreatedAt u;
     user.ApprovedAt := user.ApprovedAt u; user.ApprovedBy := user.ApprovedBy u;
     user.IsAdmin := b; user.Status := user.Status u |}.

Definition with_Status (s : string) (u : user.User) : user.User :=
  {| user.ID := user.ID u; user.Username := user.Username u;
     user.PasswordHash := user.PasswordHash u; user.CreatedAt := user.CreatedAt u;
     user.ApprovedAt := user.ApprovedAt u; user.ApprovedBy := user.ApprovedBy u;
     user.IsAdmin := user.IsAdmin u; user.Status := s |}.

Definition GetUserByID (id : Z) : DB (option user.User * option error) :=
  '(u, err) <- UserRepo_GetUserByID id ;;
  match err with
  | Some e => yield (None, Some e)
  | None =>
      match u with
      | None => yield (None, Some ErrUserNotFound)
      | Some u => yield (Some u, None)
      end
  end.

Definition GetUserByUsername (username : string) : DB (option user.User * option error) :=
  '(u, err) <- lift (user.UserRepo_GetUserByUsername username) ;;
  match err with
  | Some e => yield (None, Some e)
  | None =>
      match u with
      | None => yield (None, Some ErrUserNotFound)
      | Some u => yield (Some u, None)
      end
  end.

Definition UpdateUser (u : user.User) : DB (option error) :=
  match user.validateUsername user.service (user.Username u) with
  | Some e => yield (Some e)
  | None => UserRepo_UpdateUser u
  end.

Definition DeleteUser (username : string) : DB (option error) :=
  UserRepo_DeleteUserByUsername username.

Definition ApproveUser (userID approvedBy : Z) : DB (option error) :=
  '(u, err) <- UserRepo_GetUserByID userID ;;
  match err with
  | Some e => yield (Some e)
  | None =>
  match u with
  | None => yield (Some ErrUserNotFound)
  | Some u =>
      match user.ApprovedAt u with
      | Some _ => yield (Some ErrUserAlreadyApproved)
      | None =>
          '(approver, err) <- UserRepo_GetUserByID approvedBy ;;
          match err with
          | Some e => yield (Some e)
          | None =>
              match approver with
              | None => yield (Some ErrUnauthorized)
              | Some approver =>
                  if negb (user.IsAdmin approver) then yield (Some ErrUnauthorized)
                  else UserRepo_ApproveUser userID approvedBy
              end
          end
      end
  end
  end.

Definition MakeAdmin (userID adminID : Z) : DB (option error) :=
  '(admin, err) <- UserRepo_GetUserByID adminID ;;
  match err with
  | Some e => yield (Some e)
  | None =>
  match admin with
  | None => yield (Some ErrUnauthorized)
  | Some admin =>
      if negb (user.IsAdmin admin) then yield (Some ErrUnauthorized)
      else
        '(u, err) <- UserRepo_GetUserByID userID ;;
        match err with
        | Some e => yield (Some e)
        | None =>
            match u with
            | None => yield (Some ErrUserNotFound)
            | Some u => UserRepo_UpdateUser (with_IsAdmin true u)
            end
        end
  end
  end.

Definition RevokeAdmin (userID adminID : Z) : DB (option failure) :=
  '(admin, err) <- UserRepo_GetUserByID adminID ;;
  match err with
  | Some e => yield (Some (Failed e))
  | None =>
  match admin with
  | None => yield (Some (Failed ErrUnauthorized))
  | Some admin =>
      if negb (user.IsAdmin admin) then yield (Some (Failed ErrUnauthorized))
      else if userID =? adminID
      then yield (Some (errors_New "cannot revoke your own admin privileges"))
      else
        '(u, err) <- UserRepo_GetUserByID userID ;;
        match err with
        | Some e => yield (Some (Failed e))
        | None =>
            match u with
            | None => yield (Some (Failed ErrUserNotFound))
            | Some u =>
                err <- UserRepo_UpdateUser (with_IsAdmin false u) ;;
                yield (option_map Failed err)
            end
        end
  end
  end.

Definition UpdateUserStatus (userID : Z) (status : string) (adminID : Z)
  : DB (option error) :=
  '(admin, err) <- UserRepo_GetUserByID adminID ;;
  match err with
  | Some e => yield (Some e)
  | None =>
  match admin with
  | None => yield (Some ErrUnauthorized)
  | Some admin =>
      if negb (user.IsAdmin admin) then yield (Some ErrUnauthorized)
      else
        '(u, err) <- UserRepo_GetUserByID userID ;;
        match err with
        | Some e => yield (Some e)
        | None =>
            match u with
            | None => yield (Some ErrUserNotFound)
            | Some u => UserRepo_UpdateUser (with_Status status u)
            end
        end
  end
  end.

Section WithBcrypt.

Variable B : bcrypt.Impl.

Definition ChangePassword (username currentPassword newPassword : string)
  : DB (option error) :=
  '(u, err) <- lift (user.AuthenticateUser B user.service username currentPassword) ;;
  match err with
  | Some e => yield (Some e)
  | None =>
  match u with
  | None => yield (Some ErrNilDereference)
  | Some u =>
      match user.validatePassword user.service newPassword with
      | Some e => yield (Some e)
      | None =>
          '(p, err) <- lift (user.password_Set B (user.PasswordHash u) newPassword) ;;
          match err with
          | Some e => yield (Some (Wrapf "failed to hash password" e))
          | None => UserRepo_UpdateUser (user.with_PasswordHash p u)
          end
      end
  end
  end.

End WithBcrypt.

(** *** Vocabulary of the properties *)

(** A row with another administrator flag, with another status. *)
Definition flagged (b : bool) (r : UserRow) : UserRow :=
  {| u_id := u_id r; u_username := u_username r;
     u_password_hash := u_password_hash r; u_created_at := u_created_at r;
     u_approved_at := u_approved_at r; u_approved_by := u_approved_by r;
     u_is_admin := b; u_status := u_status r |}.

Definition labelled (s : string) (r : UserRow) : UserRow :=
  {| u_id := u_id r; u_username := u_username r;
     u_password_hash := u_password_hash r; u_created_at := u_created_at r;
     u_approved_at := u_approved_at r; u_approved_by := u_approved_by r;
     u_is_admin := u_is_admin r; u_status := s |}.

(** The row of an id, the row of a name: what the SELECTs find. *)
Definition by_id (id : Z) (rows : list UserRow) : option UserRow :=
  find (fun r => u_id r =? id) rows.

Definition by_name (username : string) (rows : list UserRow) : option UserRow :=
  find (fun r => String.eqb (u_username r) username) rows.

(** Applies [f] to the rows of an id. *)
Definition at_id (id : Z) (f : UserRow -> UserRow) (rows : list UserRow) : list UserRow :=
  map (fun r => if u_id r =? id then f r else r) rows.

(** *** Sample data *)

(** The database of an empty journal over a world, with a driver that
    delivers every statement. *)
Definition over (w : World) : Db :=
  {| world := w; sent := []; fate := fun _ => None |}.

(** An administrator, user 2, beside the registered user of the sample
    world, user 1. *)
Definition root : UserRow :=
  {| u_id := 2; u_username := "root"; u_password_hash := [];
     u_created_at := sample.clock 0; u_approved_at := Some (sample.clock 0);
     u_approved_by := None; u_is_admin := true; u_status := "active" |}.

Definition office : Db :=
  over (with_users (fun rows => rows ++ [root]) (with_serial 2 sample.registered)).

End account.

(** * Properties

    From here on: the test vectors of the encodings, what each operation
    of the repositories does to a world, and the properties of the token
    service, the password holder and the user service. *)

Lemma bytes_eqb_eq (a b : list byte) : bytes_eqb a b = true <-> a = b.
Proof.
  unfold bytes_eqb. destruct (list_eq_dec Byte.byte_eq_dec a b); split; intros; congruence.
Qed.

Lemma bytes_eqb_refl (a : list byte) : bytes_eqb a a = true.
Proof. now apply bytes_eqb_eq. Qed.

(** The first and the last round constant, and the first word of the
    initial value, as FIPS 180-4 prints them. *)
Example sha256_constants :
  hd 0 sha256.K = 0x428a2f98 /\ last sha256.K 0 = 0xc67178f2 /\
  length sha256.K = 64%nat /\ sha256.ha sha256.init = 0x6a09e667.
Proof. repeat split. Qed.

(** FIPS 180-4 test vectors: the empty message and "abc". *)
Example sha256_empty :
  sha256.Sum256 [] =
  [ xe3; xb0; xc4; x42; x98; xfc; x1c; x14; x9a; xfb; xf4; xc8; x99; x6f; xb9; x24;
    x27; xae; x41; xe4; x64; x9b; x93; x4c; xa4; x95; x99; x1b; x78; x52; xb8; x55 ].
Proof. vm_compute. reflexivity. Qed.

Example sha256_abc :
  sha256.Sum256 (list_byte_of_string "abc") =
  [ xba; x78; x16; xbf; x8f; x01; xcf; xea; x41; x41; x40; xde; x5d; xae; x22; x23;
    xb0; x03; x61; xa3; x96; x17; x7a; x9c; xb4; x10; xff; x61; xf2; x00; x15; xad ].
Proof. vm_compute. reflexivity. Qed.

(** A two-block message (56 bytes), FIPS 180-4 appendix B.2. *)
Example sha256_two_blocks :
  sha256.Sum256
    (list_byte_of_string "abcdbcdecdefdefgefghfghighijhijkijkljklmklmnlmnomnopnopq") =
  [ x24; x8d; x6a; x61; xd2; x06; x38; xb8; xe5; xc0; x26; x93; x0c; x3e; x60; x39;
    xa3; x3c; xe4; x59; x64; xff; x21; x67; xf6; xec; xed; xd4; x19; xdb; x06; xc1 ].
Proof. vm_compute. reflexivity. Qed.

Lemma Sum256_length (data : list byte) : length (sha256.Sum256 data) = sha256.Size.
Proof. reflexivity. Qed.

(** RFC 4648 section 10 test vectors, without the padding. *)
Example base32_foobar :
  map base32.EncodeToString
      (map list_byte_of_string [EmptyString; "f"; "fo"; "foo"; "foob"; "fooba"; "foobar"]) =
  [EmptyString; "MY"; "MZXQ"; "MZXW6"; "MZXW6YQ"; "MZXW6YTB"; "MZXW6YTBOI"].
Proof. vm_compute. reflexivity. Qed.

Example TrimSpace_samples :
  map strings.TrimSpace
      [ "abc"; "  abc"; "abc  "; (String "009" (String "010" "a b") ++ String "013" EmptyString)%string;
        "   "; EmptyString;
        (String "194" (String "160" "ab") ++ String "226" (String "128" (String "131" EmptyString)))%string;
        String "160" "ab" ] =
  [ "abc"; "abc"; "abc"; "a b"; EmptyString; EmptyString; "ab"; String "160" "ab" ].
Proof. vm_compute. reflexivity. Qed.


(** ** Facts about the encodings *)

Lemma symbol_in_alphabet (i : N) :
  In (base32.symbol i) (list_ascii_of_string base32.encodeStd).
Proof.
  unfold base32.symbol.
  destruct (Nat.lt_ge_cases (N.to_nat i) (length (list_ascii_of_string base32.encodeStd)))
    as [Hlt | Hge].
  - now apply nth_In.
  - rewrite nth_overflow by exact Hge. simpl. now left.
Qed.

Lemma encode_in_alphabet (bits : list bool) :
  forall acc k,
    Forall (fun c => In c (list_ascii_of_string base32.encodeStd)) (base32.encode acc k bits).
Proof.
  induction bits as [| b rest IH]; intros acc k.
  - destruct k; simpl; [constructor |].
    constructor; [apply symbol_in_alphabet | constructor].
  - destruct k as [| [| [| [| [| k]]]]]; simpl; try apply IH.
    constructor; [apply symbol_in_alphabet | apply IH].
Qed.

(** No padding: the character ['='] does not occur in an encoding. *)
Lemma EncodeToString_no_padding (src : list byte) :
  ~ In "="%char (list_ascii_of_string (base32.EncodeToString src)).
Proof.
  unfold base32.EncodeToString. rewrite list_ascii_of_string_of_list_ascii.
  intros Hin.
  pose proof (encode_in_alphabet (flat_map base32.bits_of_byte src) 0 0) as Hall.
  rewrite Forall_forall in Hall. specialize (Hall _ Hin).
  simpl in Hall. repeat (destruct Hall as [Hall | Hall]; [discriminate Hall |]).
  exact Hall.
Qed.

Lemma encode_length (bits : list bool) :
  forall acc k, (k <= 4)%nat ->
    length (base32.encode acc k bits) = ((k + length bits + 4) / 5)%nat.
Proof.
  induction bits as [| b rest IH]; intros acc k Hk.
  - destruct k as [| [| [| [| [| k]]]]]; try reflexivity. lia.
  - destruct k as [| [| [| [| [| k]]]]]; try lia; simpl base32.encode;
      try (rewrite IH by lia; f_equal; simpl length; lia).
    simpl length. rewrite IH by lia.
    replace (4 + S (length rest) + 4)%nat with (0 + length rest + 4 + 1 * 5)%nat by lia.
    rewrite Nat.div_add by discriminate. lia.
Qed.

Lemma bits_length (src : list byte) :
  length (flat_map base32.bits_of_byte src) = (8 * length src)%nat.
Proof.
  induction src as [| b src IH]; [reflexivity |].
  cbn [flat_map]. rewrite length_app, IH. unfold base32.bits_of_byte.
  rewrite length_map. simpl length. lia.
Qed.

(** Thirty-two bytes make fifty-two characters. *)
Lemma EncodeToString_length_32 (src : list byte) :
  length src = 32%nat -> String.length (base32.EncodeToString src) = 52%nat.
Proof.
  intros Hlen. unfold base32.EncodeToString.
  rewrite <- (list_ascii_of_string_of_list_ascii (base32.encode 0 0 _)) at 1.
  assert (Hs : forall s, String.length s = length (list_ascii_of_string s)).
  { induction s as [| c s IHs]; simpl; congruence. }
  rewrite Hs, list_ascii_of_string_of_list_ascii, list_ascii_of_string_of_list_ascii.
  rewrite encode_length by lia. rewrite bits_length, Hlen. reflexivity.
Qed.


(** ** Facts about package token *)

Import token.

(** The digest and the encoding are never unfolded in what follows. *)
Opaque sha256.Sum256 base32.EncodeToString.

Lemma row_of_scan (r : TokenRow) : row_of (scan r) = r.
Proof. destruct r; reflexivity. Qed.

Lemma find_has_hash (hash : list byte) (rows : list TokenRow) (r : TokenRow) :
  find (has_hash hash) rows = Some r -> In r rows /\ t_hash r = hash.
Proof.
  intros Hfind. apply find_some in Hfind. destruct Hfind as [Hin Heq].
  split; [exact Hin | now apply bytes_eqb_eq].
Qed.

Lemma find_has_hash_none (hash : list byte) (rows : list TokenRow) :
  find (has_hash hash) rows = None <-> (forall r, In r rows -> t_hash r <> hash).
Proof.
  split.
  - intros Hnone r Hin Heq.
    pose proof (find_none _ _ Hnone r Hin) as Hf. unfold has_hash in Hf.
    rewrite Heq, bytes_eqb_refl in Hf. discriminate.
  - intros Hall. destruct (find (has_hash hash) rows) as [r |] eqn:Hfind; [| reflexivity].
    apply find_has_hash in Hfind. destruct Hfind as [Hin Heq]. now destruct (Hall r Hin).
Qed.

Lemma slot_others (userID : Z) (scope : string) (rows : list TokenRow) :
  slot userID scope (others userID scope rows) = [].
Proof.
  unfold slot, others. induction rows as [| r rows IH]; [reflexivity |].
  simpl. destruct (in_slot userID scope r) eqn:Hr; simpl; [exact IH |].
  rewrite Hr. exact IH.
Qed.

Lemma slot_app (userID : Z) (scope : string) (a b : list TokenRow) :
  slot userID scope (a ++ b) = slot userID scope a ++ slot userID scope b.
Proof. apply filter_app. Qed.

Lemma in_slot_iff (userID : Z) (scope : string) (r : TokenRow) :
  in_slot userID scope r = true <-> t_scope r = scope /\ t_user_id r = userID.
Proof.
  unfold in_slot. rewrite andb_true_iff, String.eqb_eq, Z.eqb_eq. tauto.
Qed.

(** *** What each operation of the repository does to a world *)

Lemma GenerateToken_run (userID ttl : Z) (scope : string) (w : World) :
  GenerateToken userID ttl scope w =
  (match entropy w (draws w) with
   | Bytes run => (Some (mint run userID (now w + ttl) scope), None)
   | Exhausted e => (None, Some e)
   end,
   with_draws (S (draws w)) (with_ticks (S (ticks w)) w)).
Proof.
  unfold GenerateToken, bind, time_Now, rand_Read, ret, now. cbn.
  destruct (entropy w (draws w)); reflexivity.
Qed.

Lemma Insert_run (tk : Token) (w : World) :
  TokenRepo_Insert tk w =
  let w1 := with_journal (journal w ++ [InsertToken (row_of tk)]) w in
  match driver w (length (journal w)) with
  | Some e => (Some e, w1)
  | None =>
      if existsb (has_hash (Hash tk)) (tokens w) then (Some ErrUniqueViolation, w1)
      else (None, with_tokens (fun rows => rows ++ [row_of tk]) w1)
  end.
Proof.
  unfold TokenRepo_Insert, insert_row, bind, send, get, modify, ret. cbn.
  destruct (driver w (length (journal w))); [reflexivity |].
  destruct (existsb _ _); reflexivity.
Qed.

Lemma DeleteAllTokensForUser_run (userID : Z) (scope : string) (w : World) :
  TokenRepo_DeleteAllTokensForUser userID scope w =
  let w1 := with_journal (journal w ++ [DeleteTokensOfUser userID scope]) w in
  match driver w (length (journal w)) with
  | Some e => (Some e, w1)
  | None => (None, with_tokens (others userID scope) w1)
  end.
Proof.
  unfold TokenRepo_DeleteAllTokensForUser, bind, send, modify, ret. cbn.
  destruct (driver w (length (journal w))); reflexivity.
Qed.

Lemma GetByHash_run (hash : list byte) (w : World) :
  TokenRepo_GetByHash hash w =
  (match driver w (length (journal w)) with
   | Some e => (None, Some e)
   | None =>
       match find (has_hash hash) (tokens w) with
       | None => (None, Some ErrNoRows)
       | Some r => (Some (scan r), None)
       end
   end,
   with_journal (journal w ++ [SelectTokenByHash hash]) w).
Proof.
  unfold TokenRepo_GetByHash, bind, send, get, ret. cbn.
  destruct (driver w (length (journal w))); [reflexivity |].
  destruct (find _ _); reflexivity.
Qed.

Lemma CreateNewToken_run (userID ttl : Z) (scope : string) (w : World) :
  TokenRepo_CreateNewToken userID ttl scope w =
  let w1 := with_draws (S (draws w)) (with_ticks (S (ticks w)) w) in
  match entropy w (draws w) with
  | Exhausted e => ((None, Some e), w1)
  | Bytes run =>
      let tk := mint run userID (now w + ttl) scope in
      let w2 := with_journal (journal w ++ [InsertToken (row_of tk)]) w1 in
      match driver w (length (journal w)) with
      | Some e => ((Some tk, Some e), w2)
      | None =>
          if existsb (has_hash (Hash tk)) (tokens w)
          then ((Some tk, Some ErrUniqueViolation), w2)
          else ((Some tk, None), with_tokens (fun rows => rows ++ [row_of tk]) w2)
      end
  end.
Proof.
  unfold TokenRepo_CreateNewToken, bind. rewrite GenerateToken_run.
  destruct (entropy w (draws w)) as [run | e]; [| reflexivity].
  rewrite Insert_run. cbn.
  destruct (driver w (length (journal w))); [reflexivity |].
  destruct (existsb _ _); reflexivity.
Qed.


(** *** Eviction before issuance *)

Lemma evict_issue_shape (userID ttl : Z) (scope : string) (w : World) :
  evicts_then_issues
    (err <- TokenRepo_DeleteAllTokensForUser userID scope ;;
     match err with
     | Some e => ret (None, Some e)
     | None =>
         '(tk, err) <- TokenRepo_CreateNewToken userID ttl scope ;;
         match err with
         | Some e => ret (None, Some e)
         | None => ret (tk, None)
         end
     end) userID ttl scope w.
Proof.
  unfold evicts_then_issues, bind. rewrite DeleteAllTokensForUser_run. cbv zeta.
  destruct (driver w (length (journal w))) as [e0 |] eqn:Hdel.
  - cbn. split; [| split; [discriminate | discriminate]].
    intros e He. injection He as <-. repeat split.
  - rewrite CreateNewToken_run. cbn [entropy draws with_tokens with_journal tokens journal
                                      driver ticks wall with_draws with_ticks].
    unfold now. cbn [wall ticks with_tokens with_journal]. fold (now w).
    rewrite length_app, Nat.add_comm. cbn [length Nat.add].
    split; [discriminate |].
    destruct (entropy w (draws w)) as [run | e1] eqn:Hent.
    + split; [discriminate |].
      intros run' _ Hrun. injection Hrun as <-.
      destruct (driver w (S (length (journal w)))) as [e2 |] eqn:Hins.
      * cbn. rewrite <- app_assoc. cbn.
        split; [reflexivity |]. split; [| split; discriminate].
        intros e He. injection He as <-. split; reflexivity.
      * destruct (existsb (has_hash (Hash (mint run userID (now w + ttl) scope)))
                          (others userID scope (tokens w))) eqn:Hdup.
        -- cbn. rewrite <- app_assoc. cbn.
           split; [reflexivity |]. split; [discriminate |].
           split; [| discriminate]. intros _ _. split; reflexivity.
        -- cbn. rewrite <- app_assoc. cbn.
           split; [reflexivity |]. split; [discriminate |].
           split; [discriminate |]. intros _ _.
           split; [reflexivity |]. split; [reflexivity |].
           change (slot userID scope
                     (others userID scope (tokens w)
                      ++ [row_of (mint run userID (now w + ttl) scope)])
                   = [row_of (mint run userID (now w + ttl) scope)]).
           rewrite slot_app, slot_others. unfold slot. cbn.
           unfold in_slot. cbn. now rewrite String.eqb_refl, Z.eqb_refl.
    + cbn. split.
      * intros e _ He. injection He as <-. repeat split.
      * intros run _ Hrun. discriminate.
Qed.

(** A successful issue after eviction leaves the new token alone in its
    slot, whatever the table held before. *)
Lemma evict_issue_alone (userID ttl : Z) (scope : string) (w : World) (tk : Token) :
  fst (( err <- TokenRepo_DeleteAllTokensForUser userID scope ;;
         match err with
         | Some e => ret (None, Some e)
         | None =>
             '(tk, err) <- TokenRepo_CreateNewToken userID ttl scope ;;
             match err with
             | Some e => ret (None, Some e)
             | None => ret (tk, None)
             end
         end) w) = (Some tk, None) ->
  slot userID scope
       (tokens (snd (( err <- TokenRepo_DeleteAllTokensForUser userID scope ;;
         match err with
         | Some e => ret (None, Some e)
         | None =>
             '(tk, err) <- TokenRepo_CreateNewToken userID ttl scope ;;
             match err with
             | Some e => ret (None, Some e)
             | None => ret (tk, None)
             end
         end) w))) = [row_of tk].
Proof.
  pose proof (evict_issue_shape userID ttl scope w) as H.
  unfold evicts_then_issues in H. cbv zeta in H.
  destruct H as (Hdel & Hgen & Hok).
  intros Hres.
  destruct (driver w (length (journal w))) as [e0 |] eqn:Hd.
  { destruct (Hdel e0 eq_refl) as (Hr & _). rewrite Hr in Hres. discriminate. }
  destruct (entropy w (draws w)) as [run | e1] eqn:Hent.
  2:{ destruct (Hgen e1 eq_refl eq_refl) as (Hr & _). rewrite Hr in Hres. discriminate. }
  destruct (Hok run eq_refl eq_refl) as (_ & Hlost & Hdup & Hfresh).
  destruct (driver w (S (length (journal w)))) as [e2 |] eqn:Hi.
  { destruct (Hlost e2 eq_refl) as (Hr & _). rewrite Hr in Hres. discriminate. }
  destruct (existsb (has_hash (Hash (mint run userID (now w + ttl) scope)))
                    (others userID scope (tokens w))) eqn:Hex.
  { destruct (Hdup eq_refl eq_refl) as (Hr & _). rewrite Hr in Hres. discriminate. }
  destruct (Hfresh eq_refl eq_refl) as (Hr & _ & Hslot).
  rewrite Hr in Hres. injection Hres as <-. exact Hslot.
Qed.


(** C3. [CreateAuthToken] deletes the user's authentication tokens and
    only then generates and inserts the new one; it returns the new token,
    or the error of the deletion, of the generation or of the insertion.
    [CreateDeployToken] does the same for the deployment scope, with the
    life time of deploy tokens. After two calls of [CreateAuthToken] for
    one user, the second of which returns a token, that token is the only
    authentication token of the user in the table. *)
Theorem CreateAuthToken_evicts_then_issues :
  forall (w : World) (userID ttl : Z),
    evicts_then_issues (CreateAuthToken service userID ttl) userID ttl ScopeAuth w /\
    evicts_then_issues (CreateDeployToken service userID)
                       userID DeployTokenDuration ScopeDeploy w /\
    (forall (ttl' : Z) (tk : Token),
        let twice := (_ <- CreateAuthToken service userID ttl ;;
                      CreateAuthToken service userID ttl') w in
        fst twice = (Some tk, None) ->
        slot userID ScopeAuth (tokens (snd twice)) = [row_of tk]).
Proof.
  intros w userID ttl. split; [apply evict_issue_shape |].
  split; [apply evict_issue_shape |].
  intros ttl' tk twice. subst twice. unfold bind.
  destruct (CreateAuthToken service userID ttl w) as [r1 w1].
  apply (evict_issue_alone userID ttl' ScopeAuth w1).
Qed.

(** *** Validation *)

Lemma ValidateToken_run (plaintext scope : string) (w : World) :
  ValidateToken service plaintext scope w =
  let hash := sha256.Sum256 (list_byte_of_string plaintext) in
  let w1 := with_journal (journal w ++ [SelectTokenByHash hash]) w in
  match driver w (length (journal w)) with
  | Some _ => ((None, Some ErrTokenNotFound), w1)
  | None =>
      match find (has_hash hash) (tokens w) with
      | None => ((None, Some ErrTokenNotFound), w1)
      | Some r =>
          (if now w >? t_expiry r then (None, Some ErrTokenExpired)
           else if negb (String.eqb (t_scope r) scope) then (None, Some ErrInvalidScope)
           else (Some (scan r), None),
           with_ticks (S (ticks w)) w1)
      end
  end.
Proof.
  unfold ValidateToken, bind. cbn [GetByHash token.repo service NewTokenService TokenRepo].
  rewrite GetByHash_run. cbv zeta.
  destruct (driver w (length (journal w))); [reflexivity |].
  destruct (find _ _) as [r |]; [| reflexivity].
  unfold time_Now, ret, now. cbn.
  destruct (wall w (ticks w) >? t_expiry r); [reflexivity |].
  destruct (negb _); reflexivity.
Qed.

(** C2. [ValidateToken] looks the digest of the plaintext up and makes
    three checks in order: no row of that hash gives [ErrTokenNotFound];
    a row whose expiry is before the clock gives [ErrTokenExpired],
    whatever its scope; an unexpired row of another scope gives
    [ErrInvalidScope]; an unexpired row of the expected scope is returned.
    The three errors differ from one another. *)
Theorem ValidateToken_three_checks :
  forall (w : World) (plaintext scope : string),
    let hash := sha256.Sum256 (list_byte_of_string plaintext) in
    let result := fst (ValidateToken service plaintext scope w) in
    ((forall r, In r (tokens w) -> t_hash r <> hash) ->
       result = (None, Some ErrTokenNotFound)) /\
    (forall r, delivers w -> find (has_hash hash) (tokens w) = Some r ->
       (t_expiry r < now w -> result = (None, Some ErrTokenExpired)) /\
       (now w <= t_expiry r -> t_scope r <> scope -> result = (None, Some ErrInvalidScope)) /\
       (now w <= t_expiry r -> t_scope r = scope -> result = (Some (scan r), None))) /\
    (ErrTokenNotFound <> ErrTokenExpired /\ ErrTokenExpired <> ErrInvalidScope /\
     ErrTokenNotFound <> ErrInvalidScope).
Proof.
  intros w plaintext scope hash result. subst result.
  rewrite ValidateToken_run. cbv zeta. fold hash.
  split; [| split].
  - intros Hnone. apply find_has_hash_none in Hnone. rewrite Hnone.
    destruct (driver w (length (journal w))); reflexivity.
  - intros r Hdel Hfind. unfold delivers in Hdel. rewrite Hdel, Hfind. cbn [fst].
    split; [| split].
    + intros Hexp. apply Z.gtb_lt in Hexp. now rewrite Hexp.
    + intros Hlive Hscope.
      destruct (now w >? t_expiry r) eqn:Hgt; [apply Z.gtb_lt in Hgt; lia |].
      apply String.eqb_neq in Hscope. now rewrite Hscope.
    + intros Hlive Hscope.
      destruct (now w >? t_expiry r) eqn:Hgt; [apply Z.gtb_lt in Hgt; lia |].
      apply String.eqb_eq in Hscope. now rewrite Hscope.
  - repeat split; discriminate.
Qed.


(** *** Generation *)

(** C6. [GenerateToken] reads 32 bytes from the entropy source; the
    plaintext is their base-32 encoding without padding (52 characters,
    none of them ['=']); the hash is the raw SHA-256 digest of the plaintext,
    32 bytes; the expiry is the clock plus [ttl]; user and scope are the
    ones given. If the entropy source fails, its error is returned and no
    token. The call makes one read of the source and leaves the table and
    the journal alone. *)
Theorem GenerateToken_populates :
  forall (w : World) (userID ttl : Z) (scope : string),
    let result := fst (GenerateToken userID ttl scope w) in
    let w' := snd (GenerateToken userID ttl scope w) in
    (forall run, entropy w (draws w) = Bytes run ->
       exists tk,
         result = (Some tk, None) /\
         length (map run (seq 0 32)) = 32%nat /\
         PlainText tk = base32.EncodeToString (map run (seq 0 32)) /\
         String.length (PlainText tk) = 52%nat /\
         ~ In "="%char (list_ascii_of_string (PlainText tk)) /\
         Hash tk = sha256.Sum256 (list_byte_of_string (PlainText tk)) /\
         length (Hash tk) = 32%nat /\
         Expiry tk = now w + ttl /\ UserID tk = userID /\ Scope tk = scope) /\
    (forall e, entropy w (draws w) = Exhausted e -> result = (None, Some e)) /\
    draws w' = S (draws w) /\ tokens w' = tokens w /\ journal w' = journal w.
Proof.
  intros w userID ttl scope result w'. subst result w'.
  rewrite GenerateToken_run. cbn [fst snd].
  split; [| split; [| repeat split]].
  - intros run Hrun. rewrite Hrun.
    exists (mint run userID (now w + ttl) scope).
    assert (Hlen : length (map run (seq 0 32)) = 32%nat)
      by (now rewrite length_map, length_seq).
    cbn [mint PlainText Hash Expiry UserID Scope].
    split; [reflexivity |]. split; [exact Hlen |]. split; [reflexivity |].
    split; [now apply EncodeToString_length_32 |].
    split; [apply EncodeToString_no_padding |].
    split; [reflexivity |]. split; [apply Sum256_length |].
    repeat split.
  - intros e He. now rewrite He.
Qed.

(** *** Paired issuance *)

Lemma find_app_some {A : Type} (f : A -> bool) (l l' : list A) (x : A) :
  find f l = Some x -> find f (l ++ l') = Some x.
Proof.
  induction l as [| y l IH]; [discriminate |].
  simpl. destruct (f y); [trivial | exact IH].
Qed.

(** Projections of updated worlds and of pairs, and nothing else. *)
Ltac wsimpl :=
  cbn [fst snd tokens users serial wall ticks entropy draws driver journal
       with_tokens with_users with_serial with_ticks with_draws with_journal].

Lemma now_with_tokens f w : now (with_tokens f w) = now w.
Proof. reflexivity. Qed.
Lemma now_with_journal j w : now (with_journal j w) = now w.
Proof. reflexivity. Qed.
Lemma now_with_draws n w : now (with_draws n w) = now w.
Proof. reflexivity. Qed.
Lemma now_with_ticks n w : now (with_ticks n w) = wall w n.
Proof. reflexivity. Qed.

Ltac wnow :=
  repeat first [ rewrite now_with_tokens | rewrite now_with_journal
               | rewrite now_with_draws | rewrite now_with_ticks ].

Lemma durations :
  AuthTokenDuration = 2 * 3600 * 1000000000 /\
  DeployTokenDuration = 4 * 3600 * 1000000000 /\
  RefreshTokenDuration = 7 * 24 * 3600 * 1000000000.
Proof. split; [| split]; vm_compute; reflexivity. Qed.

Lemma CreateAuthTokenWithRefresh_run (userID : Z) (w : World) :
  CreateAuthTokenWithRefresh service userID w =
  let '(r1, w1) := TokenRepo_CreateNewToken userID AuthTokenDuration ScopeAuth w in
  match snd r1 with
  | Some e => ((None, None, Some e), w1)
  | None =>
      let '(r2, w2) := TokenRepo_CreateNewToken userID RefreshTokenDuration ScopeRefresh w1 in
      match snd r2 with
      | Some e => ((None, None, Some e), w2)
      | None => ((fst r1, fst r2, None), w2)
      end
  end.
Proof.
  unfold CreateAuthTokenWithRefresh, bind.
  cbn [CreateNewToken token.repo service NewTokenService TokenRepo].
  destruct (TokenRepo_CreateNewToken userID AuthTokenDuration ScopeAuth w) as [[a e1] w1].
  cbn [snd fst]. destruct e1; [reflexivity |].
  destruct (TokenRepo_CreateNewToken userID RefreshTokenDuration ScopeRefresh w1) as [[rf e2] w2].
  cbn [snd fst]. destruct e2; reflexivity.
Qed.

(** C5. [CreateAuthTokenWithRefresh] issues an authentication token that
    lives two hours and a refresh token that lives seven days, for the
    user given, and adds both rows to the table; no row is deleted, so
    refresh tokens issued before stay. If the insert of the refresh token
    fails after the authentication token was inserted, the call returns the
    error and the row of the authentication token stays in the table. *)
Theorem CreateAuthTokenWithRefresh_pair :
  forall (w : World) (userID : Z),
    let result := fst (CreateAuthTokenWithRefresh service userID w) in
    let w' := snd (CreateAuthTokenWithRefresh service userID w) in
    let sent := length (journal w) in
    (forall a rf, result = (Some a, Some rf, None) ->
       Scope a = ScopeAuth /\ UserID a = userID /\
       Expiry a = now w + 2 * 3600 * 1000000000 /\
       Scope rf = ScopeRefresh /\ UserID rf = userID /\
       Expiry rf = wall w (S (ticks w)) + 7 * 24 * 3600 * 1000000000 /\
       tokens w' = tokens w ++ [row_of a; row_of rf]) /\
    (exists issued, tokens w' = tokens w ++ issued) /\
    (forall run1 run2,
       entropy w (draws w) = Bytes run1 -> entropy w (S (draws w)) = Bytes run2 ->
       let a := mint run1 userID (now w + AuthTokenDuration) ScopeAuth in
       let rf := mint run2 userID (wall w (S (ticks w)) + RefreshTokenDuration) ScopeRefresh in
       driver w sent = None -> existsb (has_hash (Hash a)) (tokens w) = false ->
       (forall e, driver w (S sent) = Some e ->
          result = (None, None, Some e) /\ tokens w' = tokens w ++ [row_of a]) /\
       (driver w (S sent) = None ->
        existsb (has_hash (Hash rf)) (tokens w ++ [row_of a]) = true ->
          result = (None, None, Some ErrUniqueViolation) /\
          tokens w' = tokens w ++ [row_of a]) /\
       (driver w (S sent) = None ->
        existsb (has_hash (Hash rf)) (tokens w ++ [row_of a]) = false ->
          result = (Some a, Some rf, None))).
Proof.
  intros w userID result w' sent. subst result w' sent.
  rewrite CreateAuthTokenWithRefresh_run, CreateNewToken_run. cbv zeta.
  destruct (entropy w (draws w)) as [run1 | e1] eqn:Hent1.
  2:{ wsimpl. split; [discriminate |]. split; [exists []; now rewrite app_nil_r |].
      intros run1 run2 Hrun1. discriminate. }
  destruct (driver w (length (journal w))) as [d1 |] eqn:Hd1.
  { wsimpl. split; [discriminate |]. split; [exists []; now rewrite app_nil_r |].
    intros run1' run2 _ _ Hd. discriminate. }
  destruct (existsb (has_hash (Hash (mint run1 userID (now w + AuthTokenDuration) ScopeAuth)))
                    (tokens w)) eqn:Hx1.
  { wsimpl. split; [discriminate |]. split; [exists []; now rewrite app_nil_r |].
    intros run1' run2 Hrun1 _ _ Hx. injection Hrun1 as <-. rewrite Hx1 in Hx. discriminate. }
  cbn [snd fst]. rewrite CreateNewToken_run. cbv zeta.
  cbn [entropy draws with_tokens with_journal with_draws with_ticks tokens journal driver].
  wnow.
  rewrite length_app, Nat.add_comm. cbn [length Nat.add].
  destruct (entropy w (S (draws w))) as [run2 | e2] eqn:Hent2.
  2:{ wsimpl. split; [discriminate |]. split; [eexists; reflexivity |].
      intros run1' run2 _ Hrun2. discriminate. }
  destruct (driver w (S (length (journal w)))) as [d2 |] eqn:Hd2.
  { wsimpl. split; [discriminate |]. split; [eexists; reflexivity |].
    intros run1' run2' Hrun1 Hrun2 _ _. injection Hrun1 as <-. injection Hrun2 as <-.
    split; [| split; discriminate].
    intros e He. injection He as <-. split; reflexivity. }
  destruct (existsb
              (has_hash (Hash (mint run2 userID (wall w (S (ticks w)) + RefreshTokenDuration)
                                    ScopeRefresh)))
              (tokens w ++ [row_of (mint run1 userID (now w + AuthTokenDuration) ScopeAuth)]))
    eqn:Hx2.
  { wsimpl. split; [discriminate |]. split; [eexists; reflexivity |].
    intros run1' run2' Hrun1 Hrun2 _ _. injection Hrun1 as <-. injection Hrun2 as <-.
    split; [discriminate |]. split; [| intros _ Hx; rewrite Hx2 in Hx; discriminate].
    intros _ _. split; reflexivity. }
  wsimpl. split; [| split].
  - intros a rf Heq. injection Heq as <- <-. wsimpl.
    rewrite <- app_assoc. cbn [mint Scope UserID Expiry app].
    destruct durations as (-> & _ & ->).
    split; [reflexivity |]. split; [reflexivity |]. split; [reflexivity |].
    split; [reflexivity |]. split; [reflexivity |]. split; reflexivity.
  - eexists. rewrite <- app_assoc. reflexivity.
  - intros run1' run2' Hrun1 Hrun2 _ _. injection Hrun1 as <-. injection Hrun2 as <-.
    split; [discriminate |]. split; [intros _ Hx; rewrite Hx2 in Hx; discriminate |].
    intros _ _. reflexivity.
Qed.


(** *** Refreshing *)

Lemma ValidateToken_ok (plaintext scope : string) (w : World) (tk : Token) :
  fst (ValidateToken service plaintext scope w) = (Some tk, None) ->
  exists r,
    find (has_hash (sha256.Sum256 (list_byte_of_string plaintext))) (tokens w) = Some r /\
    tk = scan r /\ delivers w /\ now w <= t_expiry r /\ t_scope r = scope /\
    snd (ValidateToken service plaintext scope w) =
      with_ticks (S (ticks w))
        (with_journal
           (journal w ++ [SelectTokenByHash (sha256.Sum256 (list_byte_of_string plaintext))]) w).
Proof.
  rewrite ValidateToken_run. cbv zeta. unfold delivers.
  destruct (driver w (length (journal w))); [discriminate |].
  destruct (find _ _) as [r |]; [| discriminate].
  cbn [fst snd].
  destruct (now w >? t_expiry r) eqn:Hgt; [discriminate |].
  destruct (String.eqb (t_scope r) scope) eqn:Hsc; [| discriminate].
  cbn [negb]. intros Heq. injection Heq as <-.
  exists r. repeat split.
  - rewrite Z.gtb_ltb, Z.ltb_ge in Hgt. exact Hgt.
  - now apply String.eqb_eq.
Qed.

(** C4. When the plaintext is that of a valid refresh token,
    [RefreshAuthToken] returns, if the entropy source and the database
    work, a new authentication token of the same user that lives two
    hours from the second reading of the clock; every row the table
    held is kept, the row of the refresh token among them, which is the
    row its hash finds afterwards; and the refresh token validates again
    at any later time up to its expiry. *)
Theorem RefreshAuthToken_keeps_refresh_token :
  forall (w : World) (plaintext : string) (rt : Token),
    fst (ValidateToken service plaintext ScopeRefresh w) = (Some rt, None) ->
    let hash := sha256.Sum256 (list_byte_of_string plaintext) in
    let result := fst (RefreshAuthToken service plaintext w) in
    let w' := snd (RefreshAuthToken service plaintext w) in
    (forall a, result = (Some a, None) ->
       Scope a = ScopeAuth /\ UserID a = UserID rt /\
       Expiry a = wall w (S (ticks w)) + 2 * 3600 * 1000000000 /\
       tokens w' = tokens w ++ [row_of a]) /\
    (forall run, entropy w (draws w) = Bytes run ->
       driver w (S (length (journal w))) = None ->
       let a := mint run (UserID rt) (wall w (S (ticks w)) + AuthTokenDuration) ScopeAuth in
       existsb (has_hash (Hash a)) (tokens w) = false ->
       result = (Some a, None)) /\
    find (has_hash hash) (tokens w') = Some (row_of rt) /\
    (exists issued, tokens w' = tokens w ++ issued) /\
    (forall later, tokens later = tokens w' -> delivers later -> now later <= Expiry rt ->
       fst (ValidateToken service plaintext ScopeRefresh later) = (Some rt, None)).
Proof.
  intros w plaintext rt Hvalid hash result w'.
  destruct (ValidateToken_ok _ _ _ Hvalid) as (r & Hfind & -> & Hdel & Hlive & Hscope & Hw1).
  fold hash in Hfind, Hw1.
  assert (Hrun : RefreshAuthToken service plaintext w =
                 let '(r2, w2) := TokenRepo_CreateNewToken (t_user_id r) AuthTokenDuration ScopeAuth
                                    (snd (ValidateToken service plaintext ScopeRefresh w)) in
                 match snd r2 with
                 | Some e => ((None, Some e), w2)
                 | None => ((fst r2, None), w2)
                 end).
  { unfold RefreshAuthToken, bind.
    destruct (ValidateToken service plaintext ScopeRefresh w) as [[v e] w1].
    cbn [fst snd] in Hvalid |- *. injection Hvalid as -> ->.
    cbn [CreateNewToken token.repo service NewTokenService TokenRepo scan UserID].
    destruct (TokenRepo_CreateNewToken _ _ _ w1) as [[a e2] w2].
    cbn [fst snd]. destruct e2; reflexivity. }
  subst result w'. rewrite Hrun, Hw1, CreateNewToken_run. cbv zeta. wsimpl. wnow. wsimpl.
  rewrite length_app, Nat.add_comm. cbn [length Nat.add].
  assert (Hkeep : forall issued,
             find (has_hash hash) (tokens w ++ issued) = Some (row_of (scan r)))
    by (intros issued; rewrite row_of_scan; now apply find_app_some).
  assert (Hkeep0 : find (has_hash hash) (tokens w) = Some (row_of (scan r)))
    by (now rewrite row_of_scan).
  assert (Hagain : forall later rows, tokens later = rows ->
             find (has_hash hash) rows = Some (row_of (scan r)) ->
             delivers later -> now later <= Expiry (scan r) ->
             fst (ValidateToken service plaintext ScopeRefresh later) = (Some (scan r), None)).
  { intros later rows Hrows Hf Hd Hl. rewrite ValidateToken_run. cbv zeta. fold hash.
    unfold delivers in Hd. rewrite Hd, Hrows, Hf, row_of_scan. cbn [fst].
    cbn [scan Expiry] in Hl.
    destruct (now later >? t_expiry r) eqn:Hgt; [apply Z.gtb_lt in Hgt; lia |].
    now rewrite Hscope, String.eqb_refl. }
  destruct (entropy w (draws w)) as [run | e1] eqn:Hent.
  2:{ wsimpl. split; [discriminate |]. split; [discriminate |].
      split; [exact Hkeep0 |]. split; [exists []; now rewrite app_nil_r |].
      intros later Hrows. now apply Hagain with (rows := tokens w). }
  destruct (driver w (S (length (journal w)))) as [d |] eqn:Hd.
  { wsimpl. split; [discriminate |]. split; [discriminate |].
    split; [exact Hkeep0 |]. split; [exists []; now rewrite app_nil_r |].
    intros later Hrows. now apply Hagain with (rows := tokens w). }
  cbn [scan UserID].
  destruct (existsb (has_hash (Hash (mint run (t_user_id r)
                                          (wall w (S (ticks w)) + AuthTokenDuration) ScopeAuth)))
                    (tokens w)) eqn:Hx.
  { wsimpl. split; [discriminate |].
    split; [intros run' Hr' _ Hx'; injection Hr' as <-; rewrite Hx in Hx'; discriminate |].
    split; [exact Hkeep0 |]. split; [exists []; now rewrite app_nil_r |].
    intros later Hrows. now apply Hagain with (rows := tokens w). }
  wsimpl. split; [| split; [| split; [| split]]].
  - intros a Heq. injection Heq as <-. cbn [mint Scope UserID Expiry].
    destruct durations as (-> & _ & _).
    split; [reflexivity |]. split; [reflexivity |]. split; reflexivity.
  - intros run' Hr' _ _. injection Hr' as <-. reflexivity.
  - apply Hkeep.
  - eexists. reflexivity.
  - intros later Hrows. eapply Hagain; [exact Hrows | apply Hkeep].
Qed.


(** *** The branches that would dereference [nil] are never taken *)

Lemma GenerateToken_never_nil (userID ttl : Z) (scope : string) (w : World) :
  fst (GenerateToken userID ttl scope w) <> (None, None).
Proof.
  rewrite GenerateToken_run. cbn [fst]. destruct (entropy w (draws w)); discriminate.
Qed.

Lemma ValidateToken_never_nil (plaintext scope : string) (w : World) :
  fst (ValidateToken service plaintext scope w) <> (None, None) /\
  fst (ValidateToken service plaintext scope w) <> (None, Some ErrNilDereference).
Proof.
  rewrite ValidateToken_run. cbv zeta.
  destruct (driver w (length (journal w))); [split; discriminate |].
  destruct (find _ _) as [r |]; [| split; discriminate].
  cbn [fst]. destruct (now w >? t_expiry r); [split; discriminate |].
  destruct (negb _); split; discriminate.
Qed.

(** *** The operations run on the sample world *)

Example sample_login :
  fst (CreateAuthTokenWithRefresh service 7 sample.world) =
  (Some (mint (sample.run 0) 7 (1700000000 * Second + AuthTokenDuration) ScopeAuth),
   Some (mint (sample.run 1) 7 (1700000060 * Second + RefreshTokenDuration) ScopeRefresh),
   None) /\
  PlainText (mint (sample.run 0) 7 0 ScopeAuth) = sample.auth_plaintext /\
  PlainText (mint (sample.run 1) 7 0 ScopeRefresh) = sample.refresh_plaintext.
Proof. vm_compute. repeat split. Qed.

(** C1, on the sample world. Two logins of user 7 leave two
    authentication tokens of that user in the table, both valid at the
    next reading of the clock; so does one login followed by one refresh:
    neither operation deletes the authentication token issued before. *)
Theorem login_twice_two_auth_tokens :
  let twice := snd ((_ <- CreateAuthTokenWithRefresh service 7 ;;
                     CreateAuthTokenWithRefresh service 7) sample.world) in
  let refreshed := snd (RefreshAuthToken service sample.refresh_plaintext sample.logged_in) in
  (map (fun r => (t_user_id r, t_scope r)) (tokens twice) =
     [(7, ScopeAuth); (7, ScopeRefresh); (7, ScopeAuth); (7, ScopeRefresh)] /\
   length (slot 7 ScopeAuth (tokens twice)) = 2%nat /\
   forallb (fun r => now twice <=? t_expiry r) (slot 7 ScopeAuth (tokens twice)) = true) /\
  (map (fun r => (t_user_id r, t_scope r)) (tokens refreshed) =
     [(7, ScopeAuth); (7, ScopeRefresh); (7, ScopeAuth)] /\
   length (slot 7 ScopeAuth (tokens refreshed)) = 2%nat /\
   forallb (fun r => now refreshed <=? t_expiry r) (slot 7 ScopeAuth (tokens refreshed)) = true).
Proof.
  cbv zeta. split; (split; [| split]); vm_compute; reflexivity.
Qed.


(** Three hours after the login the authentication token is expired: asked
    for with the wrong scope, it is reported as expired. *)
Lemma ValidateToken_three_checks_witness :
  fst (ValidateToken service sample.auth_plaintext ScopeDeploy sample.three_hours_later) =
  (None, Some ErrTokenExpired).
Proof.
  refine (proj1 (proj1 (proj2 (ValidateToken_three_checks
                                 sample.three_hours_later sample.auth_plaintext ScopeDeploy))
                       (row_of (mint (sample.run 0) 7 (sample.clock 0 + AuthTokenDuration)
                                     ScopeAuth)) _ _) _).
  - vm_compute. reflexivity.
  - vm_compute. reflexivity.
  - vm_compute. reflexivity.
Defined.

(** Two calls for user 7 on the sample world: the token of the second call
    is the one authentication token of the user. *)
Lemma CreateAuthToken_evicts_then_issues_witness :
  slot 7 ScopeAuth
       (tokens (snd ((_ <- CreateAuthToken service 7 AuthTokenDuration ;;
                      CreateAuthToken service 7 AuthTokenDuration) sample.world))) =
  [row_of (mint (sample.run 1) 7 (sample.clock 1 + AuthTokenDuration) ScopeAuth)].
Proof.
  refine (proj2 (proj2 (CreateAuthToken_evicts_then_issues sample.world 7 AuthTokenDuration))
                AuthTokenDuration _ _).
  vm_compute. reflexivity.
Defined.

(** The refresh token of the sample login, used once: it is still the row
    its hash finds. *)
Lemma RefreshAuthToken_keeps_refresh_token_witness :
  find (has_hash (sha256.Sum256 (list_byte_of_string sample.refresh_plaintext)))
       (tokens (snd (RefreshAuthToken service sample.refresh_plaintext sample.logged_in))) =
  Some (row_of (mint (sample.run 1) 7 (sample.clock 1 + RefreshTokenDuration) ScopeRefresh)).
Proof.
  refine (proj1 (proj2 (proj2
            (@RefreshAuthToken_keeps_refresh_token sample.logged_in sample.refresh_plaintext
               (scan (row_of (mint (sample.run 1) 7 (sample.clock 1 + RefreshTokenDuration)
                                   ScopeRefresh))) _)))).
  vm_compute. reflexivity.
Defined.

(** The driver loses the second INSERT: the call fails and the
    authentication token stays in the table. *)
Lemma CreateAuthTokenWithRefresh_pair_witness :
  fst (CreateAuthTokenWithRefresh service 7 (sample.world_losing 1)) =
    (None, None, Some (ErrDriver 57)) /\
  tokens (snd (CreateAuthTokenWithRefresh service 7 (sample.world_losing 1))) =
    [] ++ [row_of (mint (sample.run 0) 7 (sample.clock 0 + AuthTokenDuration) ScopeAuth)].
Proof.
  refine (proj1 (proj2 (proj2 (CreateAuthTokenWithRefresh_pair (sample.world_losing 1) 7))
                       (sample.run 0) (sample.run 1) _ _ _ _) (ErrDriver 57) _);
    vm_compute; reflexivity.
Defined.

(** The first read of the sample entropy source. *)
Lemma GenerateToken_populates_witness :
  exists tk,
    fst (GenerateToken 7 AuthTokenDuration ScopeAuth sample.world) = (Some tk, None) /\
    length (map (sample.run 0) (seq 0 32)) = 32%nat /\
    PlainText tk = base32.EncodeToString (map (sample.run 0) (seq 0 32)) /\
    String.length (PlainText tk) = 52%nat /\
    ~ In "="%char (list_ascii_of_string (PlainText tk)) /\
    Hash tk = sha256.Sum256 (list_byte_of_string (PlainText tk)) /\
    length (Hash tk) = 32%nat /\
    Expiry tk = now sample.world + AuthTokenDuration /\ UserID tk = 7 /\ Scope tk = ScopeAuth.
Proof.
  refine (proj1 (GenerateToken_populates sample.world 7 AuthTokenDuration ScopeAuth)
                (sample.run 0) _).
  reflexivity.
Defined.


(** ** Facts about package user *)

Import user.

Lemma length_list_ascii (s : string) : length (list_ascii_of_string s) = String.length s.
Proof. induction s as [| c s IH]; simpl; congruence. Qed.

(** *** Validation of names and passwords *)

Lemma validUsername_MatchString_iff (s : string) :
  validUsername_MatchString s = true <->
  s <> EmptyString /\ Forall (fun c => nameChar c = true) (list_ascii_of_string s).
Proof.
  unfold validUsername_MatchString. destruct s as [| c s].
  - simpl. split; [discriminate | intros [H _]; now destruct H].
  - cbn [list_ascii_of_string]. rewrite forallb_forall, Forall_forall.
    split; [intros H; split; [discriminate | exact H] | intros [_ H]; exact H].
Qed.

(** A name passes when, with the white space around it removed, it has 3
    to 50 bytes, all of them letters, digits, ['_'] or ['-']. *)
Lemma validateUsername_None (s : UserService) (username : string) :
  validateUsername s username = None <->
  let trimmed := strings.TrimSpace username in
  (3 <= String.length trimmed <= 50)%nat /\
  Forall (fun c => nameChar c = true) (list_ascii_of_string trimmed).
Proof.
  unfold validateUsername. cbv zeta.
  set (t := strings.TrimSpace username).
  destruct (String.length t <? 3)%nat eqn:H3.
  { apply Nat.ltb_lt in H3. split; [discriminate | intros [[H _] _]; lia]. }
  destruct (50 <? String.length t)%nat eqn:H50.
  { apply Nat.ltb_lt in H50. split; [discriminate | intros [[_ H] _]; lia]. }
  apply Nat.ltb_ge in H3. apply Nat.ltb_ge in H50.
  destruct (validUsername_MatchString t) eqn:Hm; cbn [negb].
  - apply validUsername_MatchString_iff in Hm. destruct Hm as [_ Hall].
    split; [intros _; split; [lia | exact Hall] | reflexivity].
  - split; [discriminate |]. intros [_ Hall].
    assert (Hne : t <> EmptyString) by (intros ->; simpl in H3; lia).
    assert (Ht : validUsername_MatchString t = true)
      by (apply validUsername_MatchString_iff; split; assumption).
    congruence.
Qed.

Lemma validateUsername_error (s : UserService) (username : string) (e : error) :
  validateUsername s username = Some e -> e = ErrInvalidUsername.
Proof.
  unfold validateUsername.
  repeat match goal with |- context [if ?b then _ else _] => destruct b end;
    congruence.
Qed.

(** A password passes when it has 8 to 100 bytes, among them an upper-case
    letter, a lower-case letter and a digit. *)
Lemma validatePassword_None (s : UserService) (pw : string) :
  validatePassword s pw = None <->
  (8 <= String.length pw <= 100)%nat /\
  (exists c, In c (list_ascii_of_string pw) /\ upper c = true) /\
  (exists c, In c (list_ascii_of_string pw) /\ lower c = true) /\
  (exists c, In c (list_ascii_of_string pw) /\ digit c = true).
Proof.
  unfold validatePassword, class_MatchString. rewrite <- !existsb_exists.
  destruct (String.length pw <? 8)%nat eqn:H8.
  { apply Nat.ltb_lt in H8. split; [discriminate | intros [[H _] _]; lia]. }
  destruct (100 <? String.length pw)%nat eqn:H100.
  { apply Nat.ltb_lt in H100. split; [discriminate | intros [[_ H] _]; lia]. }
  apply Nat.ltb_ge in H8. apply Nat.ltb_ge in H100. cbv zeta.
  destruct (existsb upper _), (existsb lower _), (existsb digit _); cbn;
    split; try discriminate; try reflexivity;
    try (intros _; repeat split; lia);
    intros (_ & Hu & Hl & Hd); discriminate.
Qed.

Lemma validatePassword_error (s : UserService) (pw : string) (e : error) :
  validatePassword s pw = Some e -> e = ErrInvalidPassword.
Proof.
  unfold validatePassword.
  repeat match goal with |- context [if ?b then _ else _] => destruct b end;
    cbv zeta; congruence.
Qed.

(** The examples of the specification. *)
Example validateUsername_examples :
  map (validateUsername service) ["ab"; "user_name-1"] = [Some ErrInvalidUsername; None].
Proof. vm_compute. reflexivity. Qed.

Example validatePassword_examples :
  map (validatePassword service) ["alllowercase1"; "Valid1Pass"] =
  [Some ErrInvalidPassword; None].
Proof. vm_compute. reflexivity. Qed.


(** *** Paging *)

(** C10. [ListUsers] and [ListPendingUsers] hand the store a limit
    between 1 and 100 and an offset of at least 0, whatever the store is:
    a limit of zero or less becomes 10, a limit above 100 becomes 100, a
    negative offset becomes 0, and every other value is passed as it is.
    Over the SQL repository the one statement sent carries these values. *)
Theorem ListUsers_clamps :
  forall (w : World) (limit offset : Z),
  exists l o : Z,
    (1 <= l <= 100 /\ 0 <= o) /\
    ((limit <= 0 -> l = 10) /\ (100 < limit -> l = 100) /\ (1 <= limit <= 100 -> l = limit)) /\
    ((offset < 0 -> o = 0) /\ (0 <= offset -> o = offset)) /\
    (forall s : UserService,
       ListUsers s limit offset = Store_ListUsers (user.repo s) l o /\
       ListPendingUsers s limit offset = Store_ListPendingUsers (user.repo s) l o) /\
    journal (snd (ListUsers service limit offset w)) = journal w ++ [SelectUsers l o] /\
    journal (snd (ListPendingUsers service limit offset w)) =
      journal w ++ [SelectPendingUsers l o].
Proof.
  intros w limit offset.
  exists (if (if limit <=? 0 then 10 else limit) >? 100 then 100
          else (if limit <=? 0 then 10 else limit)),
         (if offset <? 0 then 0 else offset).
  split; [| split; [| split; [| split; [| split]]]].
  - destruct (Z.leb_spec limit 0), (Z.ltb_spec offset 0);
      rewrite ?Z.gtb_ltb; try destruct (Z.ltb_spec 100 limit); cbn; lia.
  - destruct (Z.leb_spec limit 0);
      rewrite ?Z.gtb_ltb; try destruct (Z.ltb_spec 100 limit); cbn; lia.
  - destruct (Z.ltb_spec offset 0); lia.
  - intros s. split; reflexivity.
  - unfold ListUsers. cbv zeta.
    cbn [Store_ListUsers user.repo service NewUserService UserRepo].
    unfold UserRepo_ListUsers, bind, send, get, ret. wsimpl.
    destruct (driver w (length (journal w))); reflexivity.
  - unfold ListPendingUsers. cbv zeta.
    cbn [Store_ListPendingUsers user.repo service NewUserService UserRepo].
    unfold UserRepo_ListPendingUsers, bind, send, get, ret. wsimpl.
    destruct (driver w (length (journal w))); reflexivity.
Qed.

Section UserFacts.

Variable B : bcrypt.Impl.

Lemma GetUserByUsername_run (username : string) (w : World) :
  UserRepo_GetUserByUsername username w =
  (match driver w (length (journal w)) with
   | Some e => (None, Some e)
   | None =>
       match find (fun r => String.eqb (u_username r) username) (users w) with
       | None => (None, None)
       | Some r => (Some (user.scan r), None)
       end
   end,
   with_journal (journal w ++ [SelectUserByUsername username]) w).
Proof.
  unfold UserRepo_GetUserByUsername, bind, send, get, ret. wsimpl.
  destruct (driver w (length (journal w))); [reflexivity |].
  destruct (find _ _); reflexivity.
Qed.

Lemma find_username_none (username : string) (rows : list UserRow) :
  find (fun r => String.eqb (u_username r) username) rows = None <->
  (forall r, In r rows -> u_username r <> username).
Proof.
  split.
  - intros Hnone r Hin Heq.
    pose proof (find_none _ _ Hnone r Hin) as Hf. cbn in Hf.
    rewrite Heq, String.eqb_refl in Hf. discriminate.
  - intros Hall.
    destruct (find (fun r => String.eqb (u_username r) username) rows) as [r |] eqn:Hf;
      [| reflexivity].
    apply find_some in Hf. destruct Hf as [Hin Heq]. apply String.eqb_eq in Heq.
    now destruct (Hall r Hin).
Qed.

(** *** The password holder *)

(** C7, as the code has it. [password_Set] has bcrypt hash the password
    at cost 12 with a salt read from the entropy source; when that
    succeeds the holder keeps the hash and the plaintext, when it fails the
    holder is unchanged and the error is returned. The plaintext leaves the
    holder only through [password_ClearPlainText], which keeps the hash.
    [password_Matches] gives [true] without error when bcrypt accepts the
    candidate, [false] without error when bcrypt reports a mismatch, and
    [false] with bcrypt's error, which is no mismatch, in every other case. *)
Theorem password_holder_contract :
  forall (w : World) (p : password) (plainTextPassword candidate : string),
    let generated :=
      bcrypt.GenerateFromPassword B (list_byte_of_string plainTextPassword) 12
                                  (entropy w (draws w)) in
    let compared :=
      bcrypt.CompareHashAndPassword B (hash p) (list_byte_of_string candidate) in
    (snd generated = None ->
       fst (password_Set B p plainTextPassword w) =
       ({| plainText := Some plainTextPassword; hash := fst generated |}, None)) /\
    (forall e, snd generated = Some e ->
       fst (password_Set B p plainTextPassword w) = (p, Some e)) /\
    (plainText (password_ClearPlainText p) = None /\
     hash (password_ClearPlainText p) = hash p) /\
    (compared = None -> password_Matches B p candidate = (true, None)) /\
    (forall e, compared = Some e -> errors_Is e ErrMismatchedHashAndPassword = true ->
       password_Matches B p candidate = (false, None)) /\
    (forall e, compared = Some e -> errors_Is e ErrMismatchedHashAndPassword = false ->
       password_Matches B p candidate = (false, Some e) /\
       e <> ErrMismatchedHashAndPassword).
Proof.
  intros w p pw candidate generated compared. subst generated compared.
  unfold password_Set, bcrypt_GenerateFromPassword, password_Matches, bind, ret.
  destruct (bcrypt.GenerateFromPassword B _ 12 _) as [h [e |]]; cbn [fst snd].
  all: split; [try discriminate; try reflexivity |].
  all: split; [try discriminate; try (intros e' He'; injection He' as <-; reflexivity) |].
  all: split; [split; reflexivity |].
  all: destruct (bcrypt.CompareHashAndPassword B _ _) as [c |].
  all: split; [try discriminate; try reflexivity |].
  all: split; try discriminate.
  all: try (intros e' He' His; injection He' as <-; rewrite His; try reflexivity).
  all: split; [reflexivity |]. 
  all: intros ->; discriminate.
Qed.

(** *** Authentication *)

(** C8. [AuthenticateUser] returns [ErrUserNotFound] when no row has the
    name, [ErrUnauthorized] when a row has it and the password does not
    match, [ErrUserNotApproved] when the password matches and the row is
    not approved, and the user when the password matches and the row is
    approved; the three errors differ; and whenever a user is returned, its
    approval time is set and the password matches its hash. *)
Theorem AuthenticateUser_gate :
  forall (w : World) (username pw : string),
    let result := fst (AuthenticateUser B service username pw w) in
    ((forall r, In r (users w) -> u_username r <> username) -> delivers w ->
       result = (None, Some ErrUserNotFound)) /\
    (forall row,
       delivers w ->
       find (fun r => String.eqb (u_username r) username) (users w) = Some row ->
       (password_Matches B (PasswordHash (user.scan row)) pw = (false, None) ->
          result = (None, Some ErrUnauthorized)) /\
       (password_Matches B (PasswordHash (user.scan row)) pw = (true, None) ->
        u_approved_at row = None ->
          result = (None, Some ErrUserNotApproved)) /\
       (password_Matches B (PasswordHash (user.scan row)) pw = (true, None) ->
        u_approved_at row <> None ->
          result = (Some (user.scan row), None))) /\
    (forall u, result = (Some u, None) ->
       ApprovedAt u <> None /\
       password_Matches B (PasswordHash u) pw = (true, None) /\
       exists row, In row (users w) /\ u_username row = username /\ u = user.scan row) /\
    (ErrUserNotFound <> ErrUnauthorized /\ ErrUnauthorized <> ErrUserNotApproved /\
     ErrUserNotFound <> ErrUserNotApproved).
Proof.
  intros w username pw result. subst result.
  unfold AuthenticateUser, bind.
  cbn [Store_GetUserByUsername user.repo service NewUserService UserRepo].
  rewrite GetUserByUsername_run. unfold delivers, ret.
  split; [| split; [| split]].
  - intros Hnone Hdel. apply find_username_none in Hnone. now rewrite Hdel, Hnone.
  - intros row Hdel Hfind. rewrite Hdel, Hfind.
    split; [| split].
    + intros ->. reflexivity.
    + intros -> Happ. cbn. now rewrite Happ.
    + intros -> Happ. cbn. destruct (u_approved_at row); [reflexivity | now destruct Happ].
  - intros u.
    destruct (driver w (length (journal w))); [discriminate |].
    destruct (find _ (users w)) as [row |] eqn:Hfind; [| discriminate].
    destruct (password_Matches B (PasswordHash (user.scan row)) pw) as [m [e |]] eqn:Hm;
      [discriminate |].
    destruct m; cbn [negb]; [| discriminate].
    destruct (ApprovedAt (user.scan row)) eqn:Happ; [| discriminate].
    cbn [fst]. intros Heq. injection Heq as <-.
    split; [congruence |]. split; [exact Hm |].
    exists row. apply find_some in Hfind. destruct Hfind as [Hin Hname].
    apply String.eqb_eq in Hname. auto.
  - repeat split; discriminate.
Qed.


(** *** Registration *)

(** A name or a password that fails validation is refused before anything
    else happens: the world is left as it was, no statement is sent. *)
Lemma CreateUser_validates_first (w : World) (username pw : string) :
  (validateUsername service username <> None ->
     CreateUser B service username pw w = ((None, Some ErrInvalidUsername), w)) /\
  (validateUsername service username = None -> validatePassword service pw <> None ->
     CreateUser B service username pw w = ((None, Some ErrInvalidPassword), w)).
Proof.
  unfold CreateUser. split.
  - destruct (validateUsername service username) as [e |] eqn:Hu; [| now intros []].
    intros _. apply validateUsername_error in Hu. now subst e.
  - intros ->. destruct (validatePassword service pw) as [e |] eqn:Hp; [| now intros []].
    intros _. apply validatePassword_error in Hp. now subst e.
Qed.

(** What a successful registration leaves behind: one more row, whose name
    is the name as it was given, byte for byte; it is the trimmed name that
    was validated. *)
Lemma CreateUser_persists_name_as_given (w : World) (username pw : string) (u : User) :
  fst (CreateUser B service username pw w) = (Some u, None) ->
  exists row,
    users (snd (CreateUser B service username pw w)) = users w ++ [row] /\
    u_username row = username /\ u = user.scan row /\
    u_approved_at row = None /\ u_is_admin row = false /\ u_status row = "pending" /\
    validateUsername service username = None /\ validatePassword service pw = None /\
    (forall r, In r (users w) -> u_username r <> username).
Proof.
  unfold CreateUser.
  destruct (validateUsername service username) eqn:Hu; [discriminate |].
  destruct (validatePassword service pw) eqn:Hp; [discriminate |].
  unfold bind. cbn [Store_GetUserByUsername Store_CreateUser user.repo service
                    NewUserService UserRepo].
  rewrite GetUserByUsername_run.
  destruct (driver w (length (journal w))) as [e0 |]; [discriminate |].
  destruct (find _ (users w)) as [existing |] eqn:Hfind; [discriminate |].
  pose proof (proj1 (find_username_none username (users w)) Hfind) as Hnone.
  unfold password_Set, bcrypt_GenerateFromPassword, bind, ret. wsimpl.
  destruct (bcrypt.GenerateFromPassword B _ 12 _) as [h [e1 |]]; [discriminate |].
  unfold UserRepo_CreateUser, insert_user, bind, send, get, modify, time_Now, ret. wsimpl.
  cbn [with_PasswordHash Username PasswordHash Status IsAdmin hash ApprovedAt ApprovedBy].
  destruct (driver w _) as [e2 |]; [discriminate |].
  wsimpl. cbn [with_PasswordHash Username PasswordHash Status IsAdmin hash ApprovedAt ApprovedBy
               ID CreatedAt password_ClearPlainText].
  intros Heq. injection Heq as <-.
  eexists. split; [reflexivity |]. cbn. repeat split. exact Hnone.
Qed.


End UserFacts.

(** *** The operations run on the sample world *)

(** C7, the counterexample: after a successful [password_Set] the
    holder has the plaintext in it. *)
Lemma password_Set_retains_plaintext :
  fst (password_Set sample.bcrypt {| plainText := None; hash := [] |} "Valid1Pass"
                    sample.world) =
    ({| plainText := Some "Valid1Pass";
        hash := sample.salted (map (sample.run 0) (seq 0 16))
                              (list_byte_of_string "Valid1Pass") |}, None) /\
  plainText (fst (fst (password_Set sample.bcrypt {| plainText := None; hash := [] |}
                                    "Valid1Pass" sample.world))) <> None.
Proof. split; [vm_compute; reflexivity | vm_compute; discriminate]. Qed.

(** A hash that is too short to be one is no mismatch: the error comes
    back. *)
Lemma password_holder_contract_witness :
  password_Matches sample.bcrypt {| plainText := None; hash := [] |} "Valid1Pass" =
    (false, Some ErrHashTooShort) /\
  ErrHashTooShort <> ErrMismatchedHashAndPassword.
Proof.
  refine (proj2 (proj2 (proj2 (proj2 (proj2
            (password_holder_contract sample.bcrypt sample.world
               {| plainText := None; hash := [] |} "Valid1Pass" "Valid1Pass")))))
          ErrHashTooShort _ _);
    vm_compute; reflexivity.
Defined.

(** The registered user of the sample world gives the right password
    before an administrator has approved the account. *)
Lemma AuthenticateUser_gate_witness :
  fst (AuthenticateUser sample.bcrypt service "user_name-1" "Valid1Pass" sample.registered) =
  (None, Some ErrUserNotApproved).
Proof.
  refine (proj1 (proj2
            (proj1 (proj2 (AuthenticateUser_gate sample.bcrypt sample.registered
                             "user_name-1" "Valid1Pass"))
               (hd {| u_id := 0; u_username := EmptyString; u_password_hash := [];
                      u_created_at := 0; u_approved_at := None; u_approved_by := None;
                      u_is_admin := false; u_status := EmptyString |}
                   (users sample.registered)) _ _)) _ _);
    vm_compute; reflexivity.
Defined.

Example AuthenticateUser_samples :
  fst (AuthenticateUser sample.bcrypt service "user_name-1" "Valid1Pass" sample.approved) =
    (option_map user.scan (hd_error (users sample.approved)), None) /\
  fst (AuthenticateUser sample.bcrypt service "user_name-1" "valid1pass" sample.approved) =
    (None, Some ErrUnauthorized) /\
  fst (AuthenticateUser sample.bcrypt service "user_name-2" "Valid1Pass" sample.approved) =
    (None, Some ErrUserNotFound).
Proof. split; [| split]; vm_compute; reflexivity. Qed.

(** C9, on the sample world. The name ["abc "], with a space at its end,
    passes [validateUsername], which looks at the trimmed name, and
    [CreateUser] stores the name as it was given: the row in the table has
    a name with a byte outside [[A-Za-z0-9_-]]. Likewise a name of fifty
    letters and a space is stored with its 51 bytes. *)
Theorem CreateUser_persists_untrimmed_name :
  let long := "aaaaaaaaaaaaaaaaaaaaaaaaaaaaaaaaaaaaaaaaaaaaaaaaaa " in
  (validateUsername service "abc " = None /\
   snd (fst (CreateUser sample.bcrypt service "abc " "Valid1Pass" sample.world)) = None /\
   map u_username (users (snd (CreateUser sample.bcrypt service "abc " "Valid1Pass"
                                          sample.world))) = ["abc "] /\
   forallb nameChar (list_ascii_of_string "abc ") = false) /\
  (validateUsername service long = None /\
   snd (fst (CreateUser sample.bcrypt service long "Valid1Pass" sample.world)) = None /\
   map (fun r => String.length (u_username r))
       (users (snd (CreateUser sample.bcrypt service long "Valid1Pass" sample.world))) =
     [51%nat]).
Proof.
  cbv zeta. split; [split; [| split; [| split]] | split; [| split]]; vm_compute; reflexivity.
Qed.

(** A limit and an offset below zero, on the sample world. *)
Lemma ListUsers_clamps_witness :
  exists l o : Z,
    (1 <= l <= 100 /\ 0 <= o) /\
    ((-5 <= 0 -> l = 10) /\ (100 < -5 -> l = 100) /\ (1 <= -5 <= 100 -> l = -5)) /\
    ((-1 < 0 -> o = 0) /\ (0 <= -1 -> o = -1)) /\
    (forall s : UserService,
       ListUsers s (-5) (-1) = Store_ListUsers (user.repo s) l o /\
       ListPendingUsers s (-5) (-1) = Store_ListPendingUsers (user.repo s) l o) /\
    journal (snd (ListUsers service (-5) (-1) sample.world)) =
      journal sample.world ++ [SelectUsers l o] /\
    journal (snd (ListPendingUsers service (-5) (-1) sample.world)) =
      journal sample.world ++ [SelectPendingUsers l o].
Proof. exact (ListUsers_clamps sample.world (-5) (-1)). Defined.

(** * Further properties of package token *)

Lemma DeleteTokenByHash_run (hash : list byte) (w : World) :
  TokenRepo_DeleteTokenByHash hash w =
  let w1 := with_journal (journal w ++ [DeleteTokenOfHash hash]) w in
  match driver w (length (journal w)) with
  | Some e => (Some e, w1)
  | None => (None, with_tokens (filter (fun r => negb (has_hash hash r))) w1)
  end.
Proof.
  unfold TokenRepo_DeleteTokenByHash, bind, send, modify, ret. wsimpl.
  destruct (driver w (length (journal w))); reflexivity.
Qed.

Lemma filter_idem {A : Type} (f : A -> bool) (l : list A) :
  filter f (filter f l) = filter f l.
Proof.
  induction l as [| x l IH]; [reflexivity |].
  simpl. destruct (f x) eqn:Hx; simpl; [rewrite Hx; f_equal |]; exact IH.
Qed.

Lemma filter_all {A : Type} (f : A -> bool) (l : list A) :
  (forall x, In x l -> f x = true) -> filter f l = l.
Proof.
  induction l as [| x l IH]; intros H; [reflexivity |].
  simpl. rewrite (H x (or_introl eq_refl)). f_equal. apply IH.
  intros y Hy. apply H. now right.
Qed.

Lemma existsb_has_hash_false (hash : list byte) (rows : list TokenRow) :
  existsb (has_hash hash) rows = false <-> (forall r, In r rows -> t_hash r <> hash).
Proof.
  rewrite <- find_has_hash_none. induction rows as [| r rows IH]; [tauto |].
  simpl. destruct (has_hash hash r); simpl; [split; discriminate | exact IH].
Qed.

(** X1. A token inserted into a table that does not hold its hash is what
    [GetByHash] returns for that hash: the same hash, user, expiry and
    scope, and an empty plaintext, which is no column of the table. *)
Theorem Insert_GetByHash_round_trip :
  forall (w : World) (tk : Token),
    delivers w ->
    (forall r, In r (tokens w) -> t_hash r <> Hash tk) ->
    let w1 := snd (Insert TokenRepo tk w) in
    fst (Insert TokenRepo tk w) = None /\
    tokens w1 = tokens w ++ [row_of tk] /\
    (delivers w1 ->
       fst (GetByHash TokenRepo (Hash tk) w1) =
       (Some {| PlainText := EmptyString; Hash := Hash tk; UserID := UserID tk;
                Expiry := Expiry tk; Scope := Scope tk |}, None)).
Proof.
  intros w tk Hdel Hfresh w1. subst w1.
  cbn [Insert GetByHash TokenRepo]. rewrite Insert_run. cbv zeta.
  unfold delivers in Hdel. rewrite Hdel.
  apply existsb_has_hash_false in Hfresh. rewrite Hfresh. wsimpl.
  split; [reflexivity |]. split; [reflexivity |].
  intros Hdel1. rewrite GetByHash_run. unfold delivers in Hdel1. rewrite Hdel1. wsimpl.
  assert (Hfind : find (has_hash (Hash tk)) (tokens w ++ [row_of tk]) = Some (row_of tk)).
  { clear Hdel Hdel1. induction (tokens w) as [| r rows IH].
    - simpl. unfold has_hash. cbn [row_of t_hash]. now rewrite bytes_eqb_refl.
    - simpl in Hfresh |- *. destruct (has_hash (Hash tk) r); [discriminate |].
      apply IH. exact Hfresh. }
  rewrite Hfind. reflexivity.
Qed.

Lemma Insert_GetByHash_round_trip_witness :
  fst (GetByHash TokenRepo (Hash (mint (sample.run 9) 3 (sample.clock 7) ScopeDeploy))
         (snd (Insert TokenRepo (mint (sample.run 9) 3 (sample.clock 7) ScopeDeploy)
                      sample.logged_in))) =
  (Some {| PlainText := EmptyString;
           Hash := Hash (mint (sample.run 9) 3 (sample.clock 7) ScopeDeploy);
           UserID := 3; Expiry := sample.clock 7; Scope := ScopeDeploy |}, None).
Proof.
  refine (proj2 (proj2 (@Insert_GetByHash_round_trip sample.logged_in
                          (mint (sample.run 9) 3 (sample.clock 7) ScopeDeploy) _ _)) _).
  - vm_compute. reflexivity.
  - intros r Hin.
    assert (Hb : forallb (fun r => negb (has_hash
                   (Hash (mint (sample.run 9) 3 (sample.clock 7) ScopeDeploy)) r))
                   (tokens sample.logged_in) = true) by (vm_compute; reflexivity).
    rewrite forallb_forall in Hb. specialize (Hb r Hin).
    intros Heq. unfold has_hash in Hb. rewrite Heq, bytes_eqb_refl in Hb. discriminate.
  - vm_compute. reflexivity.
Defined.

(** X2. [RevokeToken], when its statement is delivered, returns no error
    whether or not a row of the hash exists, removes the rows of that hash
    and no other row, and leaves a table on which the plaintext of that
    hash no longer validates, for any scope; revoking the same hash again
    changes nothing more. When the statement is lost, the error is
    returned and the table is as before. *)
Theorem RevokeToken_removes :
  forall (w : World) (plaintext : string),
    let hash := sha256.Sum256 (list_byte_of_string plaintext) in
    let w1 := snd (RevokeToken token.service hash w) in
    (forall e, driver w (length (journal w)) = Some e ->
       fst (RevokeToken token.service hash w) = Some e /\ tokens w1 = tokens w) /\
    (delivers w ->
       fst (RevokeToken token.service hash w) = None /\
       (forall r, In r (tokens w1) <-> In r (tokens w) /\ t_hash r <> hash) /\
       ((forall r, In r (tokens w) -> t_hash r <> hash) -> tokens w1 = tokens w) /\
       (forall scope,
          fst (ValidateToken token.service plaintext scope w1) = (None, Some ErrTokenNotFound)) /\
       tokens (snd (RevokeToken token.service hash w1)) = tokens w1).
Proof.
  intros w plaintext hash w1. subst w1.
  unfold RevokeToken. cbn [DeleteTokenByHash token.repo token.service NewTokenService TokenRepo].
  rewrite DeleteTokenByHash_run. cbv zeta. unfold delivers.
  split.
  - intros e He. rewrite He. split; reflexivity.
  - intros Hdel. rewrite Hdel. wsimpl.
    assert (Hin : forall r, In r (filter (fun r => negb (has_hash hash r)) (tokens w)) <->
                            In r (tokens w) /\ t_hash r <> hash).
    { intros r. rewrite filter_In. unfold has_hash.
      split; intros [H1 H2]; split; try assumption.
      - intros Heq. rewrite Heq, bytes_eqb_refl in H2. discriminate.
      - destruct (bytes_eqb (t_hash r) hash) eqn:Hb; [| reflexivity].
        apply bytes_eqb_eq in Hb. contradiction. }
    split; [reflexivity |]. split; [exact Hin |]. split; [| split].
    + intros Habs. apply filter_all. intros r Hr. unfold has_hash.
      destruct (bytes_eqb (t_hash r) hash) eqn:Hb; [| reflexivity].
      apply bytes_eqb_eq in Hb. now destruct (Habs r Hr).
    + intros scope.
      rewrite ValidateToken_run. cbv zeta. fold hash. wsimpl.
      assert (Hnone : find (has_hash hash)
                           (filter (fun r => negb (has_hash hash r)) (tokens w)) = None).
      { apply find_has_hash_none. intros r Hr. apply Hin in Hr. tauto. }
      rewrite Hnone. destruct (driver w (length (journal w ++ _))); reflexivity.
    + rewrite DeleteTokenByHash_run. cbv zeta. wsimpl.
      destruct (driver w (length (journal w ++ _))); wsimpl; [reflexivity | apply filter_idem].
Qed.

Lemma RevokeToken_removes_witness :
  fst (ValidateToken token.service sample.auth_plaintext ScopeAuth
         (snd (RevokeToken token.service
                 (sha256.Sum256 (list_byte_of_string sample.auth_plaintext))
                 sample.logged_in))) = (None, Some ErrTokenNotFound).
Proof.
  refine (proj1 (proj2 (proj2 (proj2
            (proj2 (RevokeToken_removes sample.logged_in sample.auth_plaintext) _))))
          ScopeAuth).
  vm_compute. reflexivity.
Defined.

Lemma slot_others_elsewhere (userID userID' : Z) (scope scope' : string)
      (rows : list TokenRow) :
  userID' <> userID \/ scope' <> scope ->
  slot userID' scope' (others userID scope rows) = slot userID' scope' rows.
Proof.
  intros Hne. unfold slot, others.
  induction rows as [| r rows IH]; [reflexivity |].
  simpl. destruct (in_slot userID scope r) eqn:Hr; simpl.
  - destruct (in_slot userID' scope' r) eqn:Hr'; [| exact IH].
    apply in_slot_iff in Hr. apply in_slot_iff in Hr'.
    destruct Hr as [<- <-], Hr' as [Hs Hu]. destruct Hne as [H | H]; now destruct H.
  - destruct (in_slot userID' scope' r); [f_equal |]; exact IH.
Qed.

(** X3. [RevokeAllUserTokens], when its statement is delivered, returns
    no error whether or not the slot held a row, empties the slot of the
    user and scope given, and leaves every other slot, so other users and
    other scopes of the same user, exactly as it was. When the statement
    is lost, the error is returned and the table is as before. *)
Theorem RevokeAllUserTokens_empties_slot :
  forall (w : World) (userID : Z) (scope : string),
    let w1 := snd (RevokeAllUserTokens token.service userID scope w) in
    (forall e, driver w (length (journal w)) = Some e ->
       fst (RevokeAllUserTokens token.service userID scope w) = Some e /\
       tokens w1 = tokens w) /\
    (delivers w ->
       fst (RevokeAllUserTokens token.service userID scope w) = None /\
       slot userID scope (tokens w1) = [] /\
       (forall userID' scope', userID' <> userID \/ scope' <> scope ->
          slot userID' scope' (tokens w1) = slot userID' scope' (tokens w)) /\
       (slot userID scope (tokens w) = [] -> tokens w1 = tokens w)).
Proof.
  intros w userID scope w1. subst w1. unfold RevokeAllUserTokens.
  cbn [DeleteAllTokensForUser token.repo token.service NewTokenService TokenRepo].
  rewrite DeleteAllTokensForUser_run. cbv zeta. unfold delivers. split.
  - intros e He. rewrite He. split; reflexivity.
  - intros Hdel. rewrite Hdel. wsimpl.
    split; [reflexivity |]. split; [apply slot_others |].
    split; [intros u' s' Hne; now apply slot_others_elsewhere |].
    intros Hempty. unfold others. apply filter_all. intros r Hr.
    destruct (in_slot userID scope r) eqn:Hs; [| reflexivity].
    assert (Hin : In r (slot userID scope (tokens w))) by (apply filter_In; now split).
    rewrite Hempty in Hin. destruct Hin.
Qed.

Lemma RevokeAllUserTokens_empties_slot_witness :
  slot 7 ScopeAuth
       (tokens (snd (RevokeAllUserTokens token.service 7 ScopeAuth sample.logged_in))) = [] /\
  slot 7 ScopeRefresh
       (tokens (snd (RevokeAllUserTokens token.service 7 ScopeAuth sample.logged_in))) =
  slot 7 ScopeRefresh (tokens sample.logged_in).
Proof.
  refine ((fun H => conj (proj1 (proj2 H)) (proj1 (proj2 (proj2 H)) 7 ScopeRefresh _))
            (proj2 (RevokeAllUserTokens_empties_slot sample.logged_in 7 ScopeAuth) _)).
  - right. discriminate.
  - vm_compute. reflexivity.
Defined.

(** *** The slot invariant *)

Lemma length_filter_le {A : Type} (f : A -> bool) (l : list A) :
  (length (filter f l) <= length l)%nat.
Proof.
  induction l as [| x l IH]; [apply Nat.le_refl |].
  simpl. destruct (f x); simpl; lia.
Qed.

Lemma filter_comm {A : Type} (f g : A -> bool) (l : list A) :
  filter f (filter g l) = filter g (filter f l).
Proof.
  induction l as [| x l IH]; [reflexivity |].
  simpl. destruct (f x) eqn:Hf, (g x) eqn:Hg; simpl; rewrite ?Hf, ?Hg, IH; reflexivity.
Qed.

Lemma single_filter (f : TokenRow -> bool) (rows : list TokenRow) :
  slots.single rows -> slots.single (filter f rows).
Proof.
  intros H u s. unfold slot. rewrite filter_comm.
  eapply Nat.le_trans; [apply length_filter_le | apply H].
Qed.

Lemma single_evict_issue (userID : Z) (scope : string) (rows : list TokenRow) (r : TokenRow) :
  in_slot userID scope r = true ->
  slots.single rows -> slots.single (others userID scope rows ++ [r]).
Proof.
  intros Hr H u s. rewrite slot_app.
  destruct (in_slot u s r) eqn:Hus.
  - apply in_slot_iff in Hr. apply in_slot_iff in Hus.
    destruct Hr as [Hs Hu], Hus as [Hs' Hu'].
    assert (Eu : u = userID) by congruence. assert (Es : s = scope) by congruence.
    clear Hs' Hu'. subst u s.
    rewrite slot_others. unfold slot. simpl.
    assert (Hslot : in_slot userID scope r = true) by (apply in_slot_iff; now split).
    rewrite Hslot. apply Nat.le_refl.
  - unfold slot at 2. simpl. rewrite Hus, app_nil_r.
    apply (single_filter (fun r => negb (in_slot userID scope r)) H).
Qed.

Lemma evict_issue_tokens (userID ttl : Z) (scope : string) (w : World) :
  let w' := snd ((err <- TokenRepo_DeleteAllTokensForUser userID scope ;;
                  match err with
                  | Some e => ret (None, Some e)
                  | None =>
                      '(tk, err) <- TokenRepo_CreateNewToken userID ttl scope ;;
                      match err with
                      | Some e => ret (None, Some e)
                      | None => ret (tk, None)
                      end
                  end) w) in
  tokens w' = tokens w \/ tokens w' = others userID scope (tokens w) \/
  exists run, tokens w' = others userID scope (tokens w)
                          ++ [row_of (mint run userID (now w + ttl) scope)].
Proof.
  cbv zeta. unfold bind. rewrite DeleteAllTokensForUser_run. cbv zeta.
  destruct (driver w (length (journal w))); [left; reflexivity |].
  rewrite CreateNewToken_run. cbv zeta. wsimpl. wnow.
  destruct (entropy w (draws w)) as [run | e]; [| right; left; reflexivity].
  destruct (driver w _); [right; left; reflexivity |].
  destruct (existsb _ _); [right; left; reflexivity |].
  right. right. exists run. reflexivity.
Qed.

(** X4. The operations of the service that evict before they issue, and
    those that only delete or only read, keep the table at one row per
    slot at most: if no slot of any user and scope holds more than one
    row before [CreateAuthToken], [CreateDeployToken], [RevokeToken],
    [RevokeAllUserTokens] or [ValidateToken], none does afterwards,
    whatever the database and the entropy source do. *)
Theorem evicting_operations_keep_slots_single :
  forall (w : World),
    slots.single (tokens w) ->
    (forall userID ttl,
       slots.single (tokens (snd (CreateAuthToken token.service userID ttl w)))) /\
    (forall userID,
       slots.single (tokens (snd (CreateDeployToken token.service userID w)))) /\
    (forall hash, slots.single (tokens (snd (RevokeToken token.service hash w)))) /\
    (forall userID scope,
       slots.single (tokens (snd (RevokeAllUserTokens token.service userID scope w)))) /\
    (forall plaintext scope,
       slots.single (tokens (snd (ValidateToken token.service plaintext scope w)))).
Proof.
  intros w H.
  assert (Hissue : forall userID ttl scope w',
            (tokens w' = tokens w \/ tokens w' = others userID scope (tokens w) \/
             exists run, tokens w' = others userID scope (tokens w)
                                     ++ [row_of (mint run userID (now w + ttl) scope)]) ->
            slots.single (tokens w')).
  { intros u ttl s w' [-> | [-> | [run ->]]].
    - exact H.
    - now apply single_filter.
    - apply single_evict_issue; [| exact H].
      apply in_slot_iff. split; reflexivity. }
  split; [| split; [| split; [| split]]].
  - intros u ttl. apply (Hissue u ttl ScopeAuth). apply evict_issue_tokens.
  - intros u. apply (Hissue u DeployTokenDuration ScopeDeploy). apply evict_issue_tokens.
  - intros hash. unfold RevokeToken.
    cbn [DeleteTokenByHash token.repo token.service NewTokenService TokenRepo].
    rewrite DeleteTokenByHash_run. cbv zeta.
    destruct (driver w _); wsimpl; [exact H | now apply single_filter].
  - intros u s. unfold RevokeAllUserTokens.
    cbn [DeleteAllTokensForUser token.repo token.service NewTokenService TokenRepo].
    rewrite DeleteAllTokensForUser_run. cbv zeta.
    destruct (driver w _); wsimpl; [exact H | now apply single_filter].
  - intros p s. rewrite ValidateToken_run. cbv zeta.
    destruct (driver w _); [exact H |]. destruct (find _ _); exact H.
Qed.

Lemma evicting_operations_keep_slots_single_witness :
  slots.single (tokens (snd (CreateAuthToken token.service 7 AuthTokenDuration
                                             sample.logged_in))).
Proof.
  refine (proj1 (@evicting_operations_keep_slots_single sample.logged_in _) 7 AuthTokenDuration).
  intros u s.
  assert (Hrows : map (fun r => (t_user_id r, t_scope r)) (tokens sample.logged_in) =
                  [(7, ScopeAuth); (7, ScopeRefresh)]) by (vm_compute; reflexivity).
  destruct (tokens sample.logged_in) as [| a [| b [| c rest]]]; try discriminate Hrows.
  injection Hrows as Ha1 Ha2 Hb1 Hb2.
  unfold slot. cbn [filter]. unfold in_slot. rewrite Ha1, Ha2, Hb1, Hb2.
  destruct (String.eqb ScopeAuth s) eqn:E1; destruct (String.eqb ScopeRefresh s) eqn:E2;
    destruct (7 =? u); cbn; try lia.
  apply String.eqb_eq in E1. apply String.eqb_eq in E2. subst s. discriminate.
Defined.

(** *** Issued tokens and validation *)

Lemma find_app_last (hash : list byte) (rows : list TokenRow) (r : TokenRow) :
  existsb (has_hash hash) rows = false -> t_hash r = hash ->
  find (has_hash hash) (rows ++ [r]) = Some r.
Proof.
  intros Hfresh Hr. induction rows as [| x rows IH].
  - simpl. unfold has_hash. now rewrite Hr, bytes_eqb_refl.
  - simpl in Hfresh |- *. destruct (has_hash hash x); [discriminate |]. now apply IH.
Qed.

(** X5. A token that [CreateNewToken] has generated and inserted is
    accepted by [ValidateToken] under its plaintext and its scope as long
    as the clock is not after its expiry, on any later world that has the
    same table and a working database; what is returned then is the stored
    row, without the plaintext. Under any other scope it is refused with
    [ErrInvalidScope]; once the clock is after the expiry it is refused
    with [ErrTokenExpired], and validation leaves its row in the table. A
    negative life time gives a token that is expired from the start. *)
Theorem issued_token_validates :
  forall (w : World) (userID ttl : Z) (scope : string) (tk : Token),
    fst (CreateNewToken TokenRepo userID ttl scope w) = (Some tk, None) ->
    let w1 := snd (CreateNewToken TokenRepo userID ttl scope w) in
    Expiry tk = now w + ttl /\
    tokens w1 = tokens w ++ [row_of tk] /\
    forall later : World,
      tokens later = tokens w1 -> delivers later ->
      let result := fun sc => fst (ValidateToken token.service (PlainText tk) sc later) in
      (now later <= now w + ttl ->
         result scope =
         (Some {| PlainText := EmptyString; Hash := Hash tk; UserID := userID;
                  Expiry := now w + ttl; Scope := scope |}, None) /\
         (forall scope', scope' <> scope -> result scope' = (None, Some ErrInvalidScope))) /\
      (now w + ttl < now later ->
         (forall scope', result scope' = (None, Some ErrTokenExpired)) /\
         tokens (snd (ValidateToken token.service (PlainText tk) scope later)) = tokens later).
Proof.
  intros w userID ttl scope tk. cbn [CreateNewToken TokenRepo].
  rewrite CreateNewToken_run. cbv zeta.
  destruct (entropy w (draws w)) as [run | e]; [| discriminate].
  destruct (driver w (length (journal w))); [discriminate |].
  destruct (existsb _ (tokens w)) eqn:Hfresh; [discriminate |].
  cbn [fst snd]. intros Heq. injection Heq as <-. wsimpl.
  split; [reflexivity |]. split; [reflexivity |].
  intros later Hrows Hdel. cbv beta.
  assert (Hfind : find (has_hash (sha256.Sum256 (list_byte_of_string
                          (PlainText (mint run userID (now w + ttl) scope)))))
                       (tokens later) =
                  Some (row_of (mint run userID (now w + ttl) scope))).
  { rewrite Hrows. apply find_app_last; [exact Hfresh | reflexivity]. }
  assert (Hrun : forall sc,
             ValidateToken token.service (PlainText (mint run userID (now w + ttl) scope)) sc later =
             (if now later >? now w + ttl then (None, Some ErrTokenExpired)
              else if negb (String.eqb scope sc) then (None, Some ErrInvalidScope)
              else (Some (token.scan (row_of (mint run userID (now w + ttl) scope))), None),
              with_ticks (S (ticks later))
                (with_journal (journal later ++ [SelectTokenByHash
                   (sha256.Sum256 (list_byte_of_string
                      (PlainText (mint run userID (now w + ttl) scope))))]) later))).
  { intros sc. rewrite ValidateToken_run. cbv zeta. unfold delivers in Hdel.
    rewrite Hdel, Hfind. reflexivity. }
  split.
  - intros Hlive.
    assert (Hgt : (now later >? now w + ttl) = false)
      by (rewrite Z.gtb_ltb; apply Z.ltb_ge; exact Hlive).
    split.
    + rewrite Hrun, Hgt, String.eqb_refl. reflexivity.
    + intros scope' Hne. rewrite Hrun, Hgt.
      assert (Hs : String.eqb scope scope' = false) by (apply String.eqb_neq; congruence).
      now rewrite Hs.
  - intros Hlate.
    assert (Hgt : (now later >? now w + ttl) = true)
      by (rewrite Z.gtb_ltb; apply Z.ltb_lt; exact Hlate).
    split.
    + intros scope'. now rewrite Hrun, Hgt.
    + rewrite Hrun. reflexivity.
Qed.

Lemma issued_token_validates_witness :
  fst (ValidateToken token.service
         (PlainText (mint (sample.run 0) 7 (sample.clock 0 + DeployTokenDuration) ScopeDeploy))
         ScopeDeploy
         (snd (CreateNewToken TokenRepo 7 DeployTokenDuration ScopeDeploy sample.world))) =
  (Some {| PlainText := EmptyString;
           Hash := Hash (mint (sample.run 0) 7 (sample.clock 0 + DeployTokenDuration) ScopeDeploy);
           UserID := 7; Expiry := now sample.world + DeployTokenDuration;
           Scope := ScopeDeploy |}, None).
Proof.
  refine (proj1 (proj1 (proj2 (proj2
            (@issued_token_validates sample.world 7 DeployTokenDuration ScopeDeploy
               (mint (sample.run 0) 7 (sample.clock 0 + DeployTokenDuration) ScopeDeploy) _))
            (snd (CreateNewToken TokenRepo 7 DeployTokenDuration ScopeDeploy sample.world))
            eq_refl _) _)).
  - vm_compute. reflexivity.
  - vm_compute. reflexivity.
  - vm_compute. discriminate.
Defined.

(** X6. [RefreshAuthToken] issues nothing unless the plaintext validates
    as a refresh token: on an unknown plaintext, an expired refresh token
    or a token of another scope (the plaintext of an authentication token,
    say) it returns the error of the validation, which is one of
    [ErrTokenNotFound], [ErrTokenExpired] and [ErrInvalidScope], reads no
    entropy and leaves the table as it was. *)
Theorem RefreshAuthToken_fails_closed :
  forall (w : World) (plaintext : string) (e : error),
    fst (ValidateToken token.service plaintext ScopeRefresh w) = (None, Some e) ->
    let w' := snd (RefreshAuthToken token.service plaintext w) in
    fst (RefreshAuthToken token.service plaintext w) = (None, Some e) /\
    (e = ErrTokenNotFound \/ e = ErrTokenExpired \/ e = ErrInvalidScope) /\
    tokens w' = tokens w /\ draws w' = draws w /\
    journal w' =
      journal w ++ [SelectTokenByHash (sha256.Sum256 (list_byte_of_string plaintext))].
Proof.
  intros w plaintext e Hval w'. subst w'.
  unfold RefreshAuthToken, bind.
  rewrite ValidateToken_run in Hval |- *. cbv zeta in Hval |- *.
  destruct (driver w (length (journal w))).
  { cbn [fst] in Hval. injection Hval as <-. cbn. repeat split; auto. }
  destruct (find _ (tokens w)) as [r |].
  2:{ cbn [fst] in Hval. injection Hval as <-. cbn. repeat split; auto. }
  cbn [fst] in Hval.
  destruct (now w >? t_expiry r).
  { injection Hval as <-. cbn. repeat split; auto. }
  destruct (negb (String.eqb (t_scope r) ScopeRefresh)); [| discriminate].
  injection Hval as <-. cbn. repeat split; auto.
Qed.

Lemma RefreshAuthToken_fails_closed_witness :
  fst (RefreshAuthToken token.service sample.auth_plaintext sample.logged_in) =
    (None, Some ErrInvalidScope).
Proof.
  refine (proj1 (@RefreshAuthToken_fails_closed sample.logged_in sample.auth_plaintext
                   ErrInvalidScope _)).
  vm_compute. reflexivity.
Defined.

(** * Further properties of package user *)

Section MoreUserFacts.

Variable B : bcrypt.Impl.

(** X7. [CreateUser] refuses a bad name or a bad password before it does
    anything else. A name that, with the white space around it removed,
    has fewer than 3 or more than 50 bytes or a byte outside
    [[A-Za-z0-9_-]] gives [ErrInvalidUsername]; otherwise a password of
    fewer than 8 or more than 100 bytes, or without an upper-case letter,
    a lower-case letter or a digit, gives [ErrInvalidPassword]. In both
    cases the world is exactly as before: no statement is sent, no entropy
    is read, the password is not hashed. *)
Theorem CreateUser_rejects_invalid_input :
  forall (w : World) (username pw : string),
    let name_ok :=
      (3 <= String.length (strings.TrimSpace username) <= 50)%nat /\
      Forall (fun c => nameChar c = true)
             (list_ascii_of_string (strings.TrimSpace username)) in
    let password_ok :=
      (8 <= String.length pw <= 100)%nat /\
      (exists c, In c (list_ascii_of_string pw) /\ upper c = true) /\
      (exists c, In c (list_ascii_of_string pw) /\ lower c = true) /\
      (exists c, In c (list_ascii_of_string pw) /\ digit c = true) in
    (~ name_ok ->
       CreateUser B user.service username pw w = ((None, Some ErrInvalidUsername), w)) /\
    (name_ok -> ~ password_ok ->
       CreateUser B user.service username pw w = ((None, Some ErrInvalidPassword), w)).
Proof.
  intros w username pw name_ok password_ok.
  pose proof (validateUsername_None user.service username) as Hn.
  pose proof (validatePassword_None user.service pw) as Hp.
  cbv zeta in Hn. fold name_ok in Hn. fold password_ok in Hp.
  unfold CreateUser. split.
  - intros Hbad.
    destruct (validateUsername user.service username) as [e |] eqn:Hu.
    + apply validateUsername_error in Hu. now subst e.
    + destruct Hbad. now apply Hn.
  - intros Hok Hbad. rewrite (proj2 Hn Hok).
    destruct (validatePassword user.service pw) as [e |] eqn:Hv.
    + apply validatePassword_error in Hv. now subst e.
    + destruct Hbad. now apply Hp.
Qed.

(** X8. When name and password pass validation, no row has the name, the
    database delivers the SELECT and the INSERT and bcrypt hashes the
    password, [CreateUser] adds exactly one row: the name as given, the
    hash that bcrypt made at cost 12 from the password and one read of the
    entropy source, status ["pending"], no administrator, not approved,
    the next value of the sequence as id. The user returned is that row,
    with no plaintext in its password holder. *)
Theorem CreateUser_registers_pending :
  forall (w : World) (username pw : string) (h : list byte),
    validateUsername user.service username = None ->
    validatePassword user.service pw = None ->
    (forall r, In r (users w) -> u_username r <> username) ->
    driver w (length (journal w)) = None ->
    driver w (S (length (journal w))) = None ->
    bcrypt.GenerateFromPassword B (list_byte_of_string pw) 12 (entropy w (draws w)) = (h, None) ->
    let row := {| u_id := serial w + 1; u_username := username; u_password_hash := h;
                  u_created_at := now w; u_approved_at := None; u_approved_by := None;
                  u_is_admin := false; u_status := "pending" |} in
    let w' := snd (CreateUser B user.service username pw w) in
    fst (CreateUser B user.service username pw w) = (Some (user.scan row), None) /\
    plainText (PasswordHash (user.scan row)) = None /\
    users w' = users w ++ [row] /\ tokens w' = tokens w /\
    journal w' = journal w ++ [SelectUserByUsername username;
                               InsertUser username h "pending" false].
Proof.
  intros w username pw h Hu Hp Hfree Hd1 Hd2 Hgen row w'. subst row w'.
  unfold CreateUser. rewrite Hu, Hp. unfold bind.
  cbn [Store_GetUserByUsername Store_CreateUser user.repo user.service
       NewUserService UserRepo].
  rewrite GetUserByUsername_run, Hd1.
  apply find_username_none in Hfree. rewrite Hfree.
  unfold password_Set, bcrypt_GenerateFromPassword, bind, ret. wsimpl. rewrite Hgen.
  unfold UserRepo_CreateUser, insert_user, bind, send, get, modify, time_Now, ret. wsimpl.
  cbn [with_PasswordHash Username PasswordHash Status IsAdmin hash ApprovedAt ApprovedBy].
  rewrite length_app, Nat.add_comm. cbn [length Nat.add]. rewrite Hd2. wsimpl.
  rewrite <- app_assoc. repeat split.
Qed.

(** X9. [CreateUser] with a name that a row of the table has returns
    [ErrUserAlreadyExists], when name and password pass validation and the
    SELECT is delivered; the table is as before, the password is not
    hashed (no entropy is read) and no INSERT is sent. *)
Theorem CreateUser_refuses_taken_name :
  forall (w : World) (username pw : string) (row : UserRow),
    validateUsername user.service username = None ->
    validatePassword user.service pw = None ->
    delivers w ->
    In row (users w) -> u_username row = username ->
    let w' := snd (CreateUser B user.service username pw w) in
    fst (CreateUser B user.service username pw w) = (None, Some ErrUserAlreadyExists) /\
    users w' = users w /\ draws w' = draws w /\
    journal w' = journal w ++ [SelectUserByUsername username].
Proof.
  intros w username pw row Hu Hp Hdel Hin Hname w'. subst w'.
  unfold CreateUser. rewrite Hu, Hp. unfold bind.
  cbn [Store_GetUserByUsername user.repo user.service NewUserService UserRepo].
  rewrite GetUserByUsername_run. unfold delivers in Hdel. rewrite Hdel.
  destruct (find (fun r => String.eqb (u_username r) username) (users w)) as [r |] eqn:Hf.
  - repeat split.
  - pose proof (find_none _ _ Hf row Hin) as Hno. cbn in Hno.
    rewrite Hname, String.eqb_refl in Hno. discriminate.
Qed.

(** X10. With a bcrypt whose comparison accepts the password a hash was
    generated from, a user just registered cannot log in: on any later
    world with the same table and a working database, [AuthenticateUser]
    with the name and password of the registration returns
    [ErrUserNotApproved], and with a password that the comparison reports
    as a mismatch it returns [ErrUnauthorized]. *)
Theorem registered_user_not_yet_admitted :
  (forall pw cost d h,
      bcrypt.GenerateFromPassword B pw cost d = (h, None) ->
      bcrypt.CompareHashAndPassword B h pw = None) ->
  forall (w : World) (username pw : string) (u : User),
    fst (CreateUser B user.service username pw w) = (Some u, None) ->
    forall later : World,
      users later = users (snd (CreateUser B user.service username pw w)) ->
      delivers later ->
      fst (AuthenticateUser B user.service username pw later) = (None, Some ErrUserNotApproved) /\
      (forall pw',
         bcrypt.CompareHashAndPassword B (hash (PasswordHash u)) (list_byte_of_string pw') =
           Some ErrMismatchedHashAndPassword ->
         fst (AuthenticateUser B user.service username pw' later) = (None, Some ErrUnauthorized)).
Proof.
  intros Hbcrypt w username pw u Hreg later Hrows Hdel.
  assert (Hshape : exists h row,
             bcrypt.GenerateFromPassword B (list_byte_of_string pw) 12 (entropy w (draws w))
               = (h, None) /\
             users (snd (CreateUser B user.service username pw w)) = users w ++ [row] /\
             u = user.scan row /\ u_username row = username /\ u_password_hash row = h /\
             u_approved_at row = None /\
             (forall r, In r (users w) -> u_username r <> username)).
  { revert Hreg. unfold CreateUser.
    destruct (validateUsername user.service username); [discriminate |].
    destruct (validatePassword user.service pw); [discriminate |].
    unfold bind.
    cbn [Store_GetUserByUsername Store_CreateUser user.repo user.service
         NewUserService UserRepo].
    rewrite GetUserByUsername_run.
    destruct (driver w (length (journal w))); [discriminate |].
    destruct (find _ (users w)) as [x |] eqn:Hfind; [discriminate |].
    pose proof (proj1 (find_username_none username (users w)) Hfind) as Hnone.
    unfold password_Set, bcrypt_GenerateFromPassword, bind, ret. wsimpl.
    destruct (bcrypt.GenerateFromPassword B _ 12 _) as [h [e |]]; [discriminate |].
    unfold UserRepo_CreateUser, insert_user, bind, send, get, modify, time_Now, ret. wsimpl.
    cbn [with_PasswordHash Username PasswordHash Status IsAdmin hash ApprovedAt ApprovedBy].
    destruct (driver w _); [discriminate |]. wsimpl.
    intros Heq. injection Heq as <-.
    eexists. eexists. split; [reflexivity |]. split; [reflexivity |]. repeat split.
    exact Hnone. }
  destruct Hshape as (h & row & Hgen & Husers & -> & Hname & Hhash & Happ & Hfree).
  assert (Hfind : find (fun r => String.eqb (u_username r) username) (users later) = Some row).
  { rewrite Hrows, Husers. apply find_username_none in Hfree.
    clear - Hfree Hname. induction (users w) as [| x l IH].
    - simpl. now rewrite Hname, String.eqb_refl.
    - simpl in Hfree |- *. destruct (String.eqb (u_username x) username); [discriminate |].
      now apply IH. }
  assert (Hrun : forall p,
             fst (AuthenticateUser B user.service username p later) =
             match bcrypt.CompareHashAndPassword B h (list_byte_of_string p) with
             | None => (None, Some ErrUserNotApproved)
             | Some e => if errors_Is e ErrMismatchedHashAndPassword
                         then (None, Some ErrUnauthorized) else (None, Some e)
             end).
  { intros p. unfold AuthenticateUser, bind.
    cbn [Store_GetUserByUsername user.repo user.service NewUserService UserRepo].
    rewrite GetUserByUsername_run. unfold delivers in Hdel. rewrite Hdel, Hfind.
    unfold password_Matches. cbn [user.scan PasswordHash hash ApprovedAt]. rewrite Hhash, Happ.
    destruct (bcrypt.CompareHashAndPassword B h (list_byte_of_string p)) as [e |];
      [| reflexivity].
    destruct (errors_Is e ErrMismatchedHashAndPassword); reflexivity. }
  split.
  - rewrite Hrun, (Hbcrypt _ _ _ _ Hgen). reflexivity.
  - intros pw' Hmis. rewrite Hrun. cbn [user.scan PasswordHash hash] in Hmis.
    rewrite Hhash in Hmis. rewrite Hmis. reflexivity.
Qed.

End MoreUserFacts.

(** The stand-in for bcrypt accepts the password a hash was made from. *)
Lemma sample_bcrypt_accepts (pw : list byte) (cost : Z) (d : Draw) (h : list byte) :
  bcrypt.GenerateFromPassword sample.bcrypt pw cost d = (h, None) ->
  bcrypt.CompareHashAndPassword sample.bcrypt h pw = None.
Proof.
  cbn [bcrypt.GenerateFromPassword bcrypt.CompareHashAndPassword sample.bcrypt].
  unfold sample.generate, sample.compare.
  destruct (72 <? length pw)%nat; [discriminate |].
  destruct d as [r | e]; [| discriminate].
  set (salt := map r (seq 0 16)). intros Heq.
  assert (Hh : h = sample.salted salt pw) by congruence. subst h. clear Heq.
  assert (Hsalt : length salt = 16%nat) by (unfold salt; now rewrite length_map, length_seq).
  assert (Hskip : skipn 7 (sample.salted salt pw) = salt ++ sha256.Sum256 (salt ++ pw))
    by reflexivity.
  assert (Hfirst : firstn 16 (skipn 7 (sample.salted salt pw)) = salt).
  { rewrite Hskip, firstn_app, Hsalt, Nat.sub_diag, firstn_O, app_nil_r.
    rewrite <- Hsalt. apply firstn_all. }
  assert (Hlen : length (sample.salted salt pw) = 55%nat).
  { unfold sample.salted. rewrite !length_app, Hsalt, Sum256_length. reflexivity. }
  rewrite Hlen, Hfirst, bytes_eqb_refl. reflexivity.
Qed.

Lemma CreateUser_rejects_invalid_input_witness :
  CreateUser sample.bcrypt user.service "ab" "Valid1Pass" sample.world =
  ((None, Some ErrInvalidUsername), sample.world).
Proof.
  refine (proj1 (CreateUser_rejects_invalid_input sample.bcrypt sample.world
                   "ab" "Valid1Pass") _).
  intros [[Hlen _] _]. vm_compute in Hlen. lia.
Defined.

Lemma CreateUser_registers_pending_witness :
  users (snd (CreateUser sample.bcrypt user.service "user_name-1" "Valid1Pass" sample.world)) =
  [] ++ [ {| u_id := 0 + 1; u_username := "user_name-1";
             u_password_hash := sample.salted (map (sample.run 0) (seq 0 16))
                                              (list_byte_of_string "Valid1Pass");
             u_created_at := now sample.world; u_approved_at := None;
             u_approved_by := None; u_is_admin := false; u_status := "pending" |} ].
Proof.
  refine (proj1 (proj2 (proj2
            (@CreateUser_registers_pending sample.bcrypt sample.world
               "user_name-1" "Valid1Pass"
               (sample.salted (map (sample.run 0) (seq 0 16))
                              (list_byte_of_string "Valid1Pass")) _ _ _ _ _ _)))).
  - vm_compute. reflexivity.
  - vm_compute. reflexivity.
  - intros r [].
  - reflexivity.
  - reflexivity.
  - vm_compute. reflexivity.
Defined.

Lemma CreateUser_refuses_taken_name_witness :
  fst (CreateUser sample.bcrypt user.service "user_name-1" "Another2Pass" sample.registered) =
  (None, Some ErrUserAlreadyExists).
Proof.
  refine (proj1 (@CreateUser_refuses_taken_name sample.bcrypt sample.registered
                   "user_name-1" "Another2Pass"
                   (hd {| u_id := 0; u_username := EmptyString; u_password_hash := [];
                          u_created_at := 0; u_approved_at := None; u_approved_by := None;
                          u_is_admin := false; u_status := EmptyString |}
                       (users sample.registered)) _ _ _ _ _)).
  - vm_compute. reflexivity.
  - vm_compute. reflexivity.
  - vm_compute. reflexivity.
  - vm_compute. left. reflexivity.
  - vm_compute. reflexivity.
Defined.

Lemma registered_user_not_yet_admitted_witness :
  fst (AuthenticateUser sample.bcrypt user.service "user_name-1" "Valid1Pass"
         sample.registered) = (None, Some ErrUserNotApproved).
Proof.
  refine (proj1 (@registered_user_not_yet_admitted sample.bcrypt sample_bcrypt_accepts
                   sample.world "user_name-1" "Valid1Pass"
                   (user.scan (hd {| u_id := 0; u_username := EmptyString;
                                     u_password_hash := []; u_created_at := 0;
                                     u_approved_at := None; u_approved_by := None;
                                     u_is_admin := false; u_status := EmptyString |}
                                  (users sample.registered)))
                   _ sample.registered eq_refl _)).
  - vm_compute. reflexivity.
  - vm_compute. reflexivity.
Defined.

(** *** Listing *)



Lemma In_place (r x : UserRow) (l : list UserRow) :
  In x (place r l) <-> x = r \/ In x l.
Proof.
  induction l as [| y l IH]; simpl; [intuition congruence |].
  destruct (u_created_at y <? u_created_at r); simpl; [intuition congruence |].
  rewrite IH. intuition congruence.
Qed.

Lemma place_sorted (r : UserRow) (l : list UserRow) :
  StronglySorted newer_first l -> StronglySorted newer_first (place r l).
Proof.
  induction 1 as [| y l Hl IH Hy]; simpl.
  - constructor; constructor.
  - destruct (Z.ltb_spec (u_created_at y) (u_created_at r)) as [Hlt | Hge].
    + constructor; [constructor; assumption |].
      constructor; [unfold newer_first; lia |].
      rewrite Forall_forall in Hy |- *. intros z Hz. specialize (Hy z Hz).
      unfold newer_first in *. lia.
    + constructor; [exact IH |].
      rewrite Forall_forall in Hy |- *. intros z Hz. apply In_place in Hz.
      destruct Hz as [-> | Hz]; [exact Hge | now apply Hy].
Qed.

Lemma newest_first_spec (rows : list UserRow) :
  StronglySorted newer_first (newest_first rows) /\
  (forall x, In x (newest_first rows) <-> In x rows) /\
  length (newest_first rows) = length rows.
Proof.
  unfold newest_first.
  assert (H : forall acc,
             StronglySorted newer_first acc ->
             StronglySorted newer_first (fold_left (fun s r => place r s) rows acc) /\
             (forall x, In x (fold_left (fun s r => place r s) rows acc) <->
                        In x acc \/ In x rows) /\
             length (fold_left (fun s r => place r s) rows acc) =
               (length acc + length rows)%nat).
  { induction rows as [| r rows IH]; intros acc Hacc; simpl.
    - split; [exact Hacc |]. split; [tauto | lia].
    - destruct (IH (place r acc) (place_sorted r Hacc)) as (Hs & Hin & Hlen).
      split; [exact Hs |]. split.
      + intros x. rewrite Hin, In_place. intuition congruence.
      + rewrite Hlen. clear. induction acc as [| y acc IHa]; simpl; [lia |].
        destruct (u_created_at y <? u_created_at r); simpl; lia. }
  destruct (H [] (SSorted_nil _)) as (Hs & Hin & Hlen).
  split; [exact Hs |]. split; [| exact Hlen].
  intros x. rewrite Hin. simpl. tauto.
Qed.

Lemma In_firstn {A : Type} (n : nat) (l : list A) (x : A) :
  In x (firstn n l) -> In x l.
Proof. intros H. rewrite <- (firstn_skipn n l). apply in_or_app. now left. Qed.

Lemma In_skipn {A : Type} (n : nat) (l : list A) (x : A) :
  In x (skipn n l) -> In x l.
Proof. intros H. rewrite <- (firstn_skipn n l). apply in_or_app. now right. Qed.

Lemma StronglySorted_skipn {A : Type} (R : A -> A -> Prop) (n : nat) (l : list A) :
  StronglySorted R l -> StronglySorted R (skipn n l).
Proof.
  revert l. induction n as [| n IH]; intros l H; [exact H |].
  destruct l as [| x l]; [constructor |]. simpl. apply IH.
  now apply StronglySorted_inv in H.
Qed.

Lemma StronglySorted_firstn {A : Type} (R : A -> A -> Prop) (n : nat) (l : list A) :
  StronglySorted R l -> StronglySorted R (firstn n l).
Proof.
  revert l. induction n as [| n IH]; intros l H; [constructor |].
  destruct l as [| x l]; [constructor |]. simpl.
  apply StronglySorted_inv in H. destruct H as [Hl Hx].
  constructor; [now apply IH |].
  rewrite Forall_forall in Hx |- *. intros y Hy. apply Hx.
  eapply In_firstn. exact Hy.
Qed.

Lemma StronglySorted_map_scan (l : list UserRow) :
  StronglySorted newer_first l ->
  StronglySorted (fun a b : User => CreatedAt b <= CreatedAt a) (map user.scan l).
Proof.
  induction 1 as [| x l Hl IH Hx]; simpl; constructor; [exact IH |].
  rewrite Forall_forall in Hx |- *. intros u Hu. apply in_map_iff in Hu.
  destruct Hu as (r & <- & Hr). exact (Hx r Hr).
Qed.

(** What a page of a row set holds. *)
Lemma page_spec (limit offset : Z) (rows : list UserRow) (us : list User) :
  0 <= limit -> 0 <= offset ->
  page limit offset (newest_first rows) = (us, None) ->
  length us = Nat.min (Z.to_nat limit) (length rows - Z.to_nat offset) /\
  StronglySorted (fun a b : User => CreatedAt b <= CreatedAt a) us /\
  (forall u, In u us -> exists r, In r rows /\ u = user.scan r).
Proof.
  intros Hl Ho. unfold page.
  destruct (Z.ltb_spec limit 0); [lia |]. destruct (Z.ltb_spec offset 0); [lia |].
  cbn [orb]. intros Heq. injection Heq as <-.
  destruct (newest_first_spec rows) as (Hs & Hin & Hlen).
  split; [| split].
  - now rewrite length_map, length_firstn, length_skipn, Hlen.
  - apply StronglySorted_map_scan, StronglySorted_firstn, StronglySorted_skipn, Hs.
  - intros u Hu. apply in_map_iff in Hu. destruct Hu as (r & <- & Hr).
    exists r. split; [| reflexivity]. apply Hin.
    eapply In_skipn. eapply In_firstn. exact Hr.
Qed.

(** X11. What [ListUsers] returns over the SQL repository when the
    statement is delivered: with [l] the limit and [o] the offset after
    clamping, exactly [min l (n - o)] users of the [n] rows of the table,
    so never more than 100 and none when the offset is past the end; every
    one of them a row of the table, password plaintext absent; newest
    first. When the statement is lost the list is empty and the error is
    returned. The table is never changed. *)
Theorem ListUsers_page :
  forall (w : World) (limit offset : Z),
    let l := if limit <=? 0 then 10 else if limit >? 100 then 100 else limit in
    let o := Z.max 0 offset in
    let us := fst (fst (ListUsers user.service limit offset w)) in
    let err := snd (fst (ListUsers user.service limit offset w)) in
    users (snd (ListUsers user.service limit offset w)) = users w /\
    (forall e, driver w (length (journal w)) = Some e -> us = [] /\ err = Some e) /\
    (delivers w ->
       err = None /\
       length us = Nat.min (Z.to_nat l) (length (users w) - Z.to_nat o) /\
       (length us <= 100)%nat /\
       StronglySorted (fun a b : User => CreatedAt b <= CreatedAt a) us /\
       (forall u, In u us ->
          plainText (PasswordHash u) = None /\
          exists r, In r (users w) /\ u = user.scan r)).
Proof.
  intros w limit offset l o us err. subst us err.
  assert (Hl : 1 <= l <= 100).
  { subst l. destruct (Z.leb_spec limit 0); [lia |].
    rewrite Z.gtb_ltb. destruct (Z.ltb_spec 100 limit); lia. }
  assert (Ho : 0 <= o) by (subst o; lia).
  assert (Hrun : ListUsers user.service limit offset w = UserRepo_ListUsers l o w).
  { unfold ListUsers. cbv zeta.
    cbn [Store_ListUsers user.repo user.service NewUserService UserRepo].
    subst l o. f_equal.
    - destruct (limit <=? 0); reflexivity.
    - destruct (Z.ltb_spec offset 0); lia. }
  rewrite Hrun. unfold UserRepo_ListUsers, bind, send, get, ret, delivers. wsimpl.
  destruct (driver w (length (journal w))) as [e |].
  - wsimpl. split; [reflexivity |]. split; [| discriminate].
    intros e' He'. injection He' as <-. split; reflexivity.
  - wsimpl. split; [reflexivity |]. split; [discriminate |]. intros _.
    destruct (page l o (newest_first (users w))) as [us err] eqn:Hpage.
    assert (Herr : err = None).
    { revert Hpage. unfold page.
      destruct (Z.ltb_spec l 0); [lia |]. destruct (Z.ltb_spec o 0); [lia |].
      cbn [orb]. congruence. }
    subst err. cbn [fst snd].
    assert (Hl0 : 0 <= l) by lia.
    destruct (@page_spec l o _ us Hl0 Ho Hpage) as (Hlen & Hs & Hin).
    split; [reflexivity |]. split; [exact Hlen |].
    split; [rewrite Hlen; lia |]. split; [exact Hs |].
    intros u Hu. destruct (Hin u Hu) as (r & Hr & ->).
    split; [reflexivity | now exists r].
Qed.

Lemma ListUsers_page_witness :
  length (fst (fst (ListUsers user.service 0 (-3) sample.registered))) =
  Nat.min (Z.to_nat 10) (length (users sample.registered) - Z.to_nat (Z.max 0 (-3))).
Proof.
  refine (proj1 (proj2 (proj2 (proj2 (ListUsers_page sample.registered 0 (-3))) _))).
  vm_compute. reflexivity.
Defined.

(** X12. [ListPendingUsers] returns, under the same clamping and order
    as [ListUsers], users that are not approved and only those: exactly
    [min l (p - o)] of the [p] rows of the table whose approval time is
    null, each with [ApprovedAt] nil. An approved user is never listed. *)
Theorem ListPendingUsers_only_unapproved :
  forall (w : World) (limit offset : Z),
    let l := if limit <=? 0 then 10 else if limit >? 100 then 100 else limit in
    let o := Z.max 0 offset in
    let pending :=
      filter (fun r => match u_approved_at r with None => true | Some _ => false end)
             (users w) in
    let us := fst (fst (ListPendingUsers user.service limit offset w)) in
    let err := snd (fst (ListPendingUsers user.service limit offset w)) in
    users (snd (ListPendingUsers user.service limit offset w)) = users w /\
    (forall e, driver w (length (journal w)) = Some e -> us = [] /\ err = Some e) /\
    (delivers w ->
       err = None /\
       length us = Nat.min (Z.to_nat l) (length pending - Z.to_nat o) /\
       StronglySorted (fun a b : User => CreatedAt b <= CreatedAt a) us /\
       (forall u, In u us ->
          ApprovedAt u = None /\
          exists r, In r (users w) /\ u_approved_at r = None /\ u = user.scan r)).
Proof.
  intros w limit offset l o pending us err. subst us err pending.
  assert (Hl : 1 <= l <= 100).
  { subst l. destruct (Z.leb_spec limit 0); [lia |].
    rewrite Z.gtb_ltb. destruct (Z.ltb_spec 100 limit); lia. }
  assert (Ho : 0 <= o) by (subst o; lia).
  assert (Hrun : ListPendingUsers user.service limit offset w = UserRepo_ListPendingUsers l o w).
  { unfold ListPendingUsers. cbv zeta.
    cbn [Store_ListPendingUsers user.repo user.service NewUserService UserRepo].
    subst l o. f_equal.
    - destruct (limit <=? 0); reflexivity.
    - destruct (Z.ltb_spec offset 0); lia. }
  rewrite Hrun. unfold UserRepo_ListPendingUsers, bind, send, get, ret, delivers. wsimpl.
  destruct (driver w (length (journal w))) as [e |].
  - wsimpl. split; [reflexivity |]. split; [| discriminate].
    intros e' He'. injection He' as <-. split; reflexivity.
  - wsimpl. split; [reflexivity |]. split; [discriminate |]. intros _.
    set (pending := filter _ (users w)).
    destruct (page l o (newest_first pending)) as [us err] eqn:Hpage.
    assert (Herr : err = None).
    { revert Hpage. unfold page.
      destruct (Z.ltb_spec l 0); [lia |]. destruct (Z.ltb_spec o 0); [lia |].
      cbn [orb]. congruence. }
    subst err. cbn [fst snd].
    assert (Hl0 : 0 <= l) by lia.
    destruct (@page_spec l o _ us Hl0 Ho Hpage) as (Hlen & Hs & Hin).
    split; [reflexivity |]. split; [exact Hlen |]. split; [exact Hs |].
    intros u Hu. destruct (Hin u Hu) as (r & Hr & ->).
    subst pending. apply filter_In in Hr. destruct Hr as [Hr Hnull].
    assert (Hnone : u_approved_at r = None)
      by (destruct (u_approved_at r); [discriminate | reflexivity]).
    split; [exact Hnone |]. exists r. auto.
Qed.

Lemma ListPendingUsers_only_unapproved_witness :
  length (fst (fst (ListPendingUsers user.service 500 0 sample.approved))) =
  Nat.min (Z.to_nat 100)
          (length (filter (fun r => match u_approved_at r with
                                    | None => true | Some _ => false end)
                          (users sample.approved)) - Z.to_nat (Z.max 0 0)).
Proof.
  refine (proj1 (proj2 (proj2 (proj2 (ListPendingUsers_only_unapproved
                                        sample.approved 500 0)) _))).
  vm_compute. reflexivity.
Defined.

(** * Properties of the rest of package user *)

Import account.

(** Projections of databases, of worlds and of pairs, and nothing else. *)
Ltac dsimpl :=
  cbn [fst snd account.world account.sent account.fate
       tokens users serial wall ticks entropy draws driver journal
       with_tokens with_users with_serial with_ticks with_draws with_journal].

Lemma GetUserByID_run (id : Z) (d : Db) :
  UserRepo_GetUserByID id d =
  (match fate d (length (sent d)) with
   | Some e => (None, Some e)
   | None =>
       match by_id id (users (world d)) with
       | None => (None, None)
       | Some r => (Some (user.scan r), None)
       end
   end,
   {| world := world d; sent := sent d ++ [SelectUserByID id]; fate := fate d |}).
Proof.
  unfold UserRepo_GetUserByID, chain, exec, lift, get, yield, by_id. dsimpl.
  destruct (fate d (length (sent d))); [reflexivity |].
  destruct (world d); dsimpl. destruct (find _ _); reflexivity.
Qed.

Lemma UpdateUser_run (u : User) (d : Db) :
  UserRepo_UpdateUser u d =
  let q := UpdateUserByID (Username u) (Status u) (IsAdmin u) (ApprovedAt u)
                          (ApprovedBy u) (ID u) in
  match fate d (length (sent d)) with
  | Some e => (Some e, {| world := world d; sent := sent d ++ [q]; fate := fate d |})
  | None =>
      (match by_id (ID u) (users (world d)) with
       | None => Some ErrNoRows
       | Some _ => None
       end,
       {| world := with_users (at_id (ID u) (written u)) (world d);
          sent := sent d ++ [q]; fate := fate d |})
  end.
Proof.
  unfold UserRepo_UpdateUser, chain, exec, lift, get, modify, yield, by_id, at_id. dsimpl.
  destruct (fate d (length (sent d))); [reflexivity |].
  destruct (world d) as [tk us sr wl ti en dr dv jn]; dsimpl.
  assert (H : Nat.eqb (length (filter (fun r => u_id r =? ID u) us)) 0 =
              match find (fun r => u_id r =? ID u) us with None => true | Some _ => false end).
  { clear. induction us as [| r us IH]; [reflexivity |].
    simpl. destruct (u_id r =? ID u); [reflexivity | exact IH]. }
  rewrite H. destruct (find _ us); reflexivity.
Qed.

Lemma at_id_absent (id : Z) (f : UserRow -> UserRow) (rows : list UserRow) :
  by_id id rows = None -> at_id id f rows = rows.
Proof.
  unfold by_id, at_id. induction rows as [| r rows IH]; [reflexivity |].
  simpl. destruct (u_id r =? id); [discriminate |]. intros H. f_equal. now apply IH.
Qed.

Lemma by_id_In (id : Z) (rows : list UserRow) (r : UserRow) :
  by_id id rows = Some r -> In r rows /\ u_id r = id.
Proof.
  unfold by_id. intros H. apply find_some in H. destruct H as [Hin Heq].
  split; [exact Hin | now apply Z.eqb_eq].
Qed.

(** With ids that are a key, the row of an id is the one row [at_id]
    changes. *)
Lemma at_id_key (id : Z) (f g : UserRow -> UserRow) (rows : list UserRow) (r : UserRow) :
  NoDup (map u_id rows) -> by_id id rows = Some r -> g r = f r ->
  (forall x, In x rows -> u_id x = id -> x = r) /\
  at_id id g rows = at_id id f rows.
Proof.
  intros Hkey Hfind Hgf.
  assert (Hone : forall x, In x rows -> u_id x = id -> x = r).
  { apply by_id_In in Hfind. destruct Hfind as [Hin Hid].
    clear Hgf. induction rows as [| y rows IH]; [intros x []|].
    simpl in Hkey. apply NoDup_cons_iff in Hkey. destruct Hkey as [Hy Hkey].
    intros x [-> | Hx] Hxid; destruct Hin as [-> | Hr]; try reflexivity.
    - destruct Hy. rewrite Hxid, <- Hid. now apply in_map.
    - destruct Hy. rewrite Hid, <- Hxid. now apply in_map.
    - now apply IH. }
  split; [exact Hone |].
  unfold at_id. apply map_ext_in. intros x Hx.
  destruct (Z.eqb_spec (u_id x) id) as [Hid | _]; [| reflexivity].
  rewrite (Hone x Hx Hid). exact Hgf.
Qed.

(** X13. [MakeAdmin], [RevokeAdmin] and [UpdateUserStatus] do nothing
    for an actor who is no administrator: when the id of the actor finds
    no row, or a row whose administrator flag is not set, they return
    [ErrUnauthorized], whoever the target is, and have sent one statement,
    the SELECT of the actor; the world, so the table, is as before. *)
Theorem admin_operations_need_an_admin :
  forall (d : Db) (userID adminID : Z) (status : string),
    answers d ->
    (forall r, by_id adminID (users (world d)) = Some r -> u_is_admin r = false) ->
    let seen := {| world := world d; sent := sent d ++ [SelectUserByID adminID];
                   fate := fate d |} in
    MakeAdmin userID adminID d = (Some ErrUnauthorized, seen) /\
    RevokeAdmin userID adminID d = (Some (Failed ErrUnauthorized), seen) /\
    UpdateUserStatus userID status adminID d = (Some ErrUnauthorized, seen).
Proof.
  intros d userID adminID status Hans Hno seen. subst seen.
  unfold MakeAdmin, RevokeAdmin, UpdateUserStatus, chain.
  rewrite GetUserByID_run. unfold answers in Hans. rewrite Hans.
  destruct (by_id adminID (users (world d))) as [r |] eqn:Hr.
  - cbn [user.scan IsAdmin]. rewrite (Hno r eq_refl). cbn [negb]. repeat split.
  - repeat split.
Qed.

Lemma admin_operations_need_an_admin_witness :
  fst (MakeAdmin 1 1 office) = Some ErrUnauthorized /\
  users (world (snd (MakeAdmin 1 1 office))) = users (world office).
Proof.
  refine ((fun H => conj (f_equal fst H) (f_equal (fun x => users (world (snd x))) H))
            (proj1 (@admin_operations_need_an_admin office 1 1 "active" _ _))).
  - reflexivity.
  - intros r Hr. vm_compute in Hr. injection Hr as <-. reflexivity.
Defined.

(** X14. [RevokeAdmin] with the actor as target never changes the table,
    whatever the database does; for an actor who is an administrator it
    returns the error ["cannot revoke your own admin privileges"], which
    is none of the sentinel errors, after the one SELECT of the actor. *)
Theorem RevokeAdmin_not_of_oneself :
  forall (d : Db) (adminID : Z),
    world (snd (RevokeAdmin adminID adminID d)) = world d /\
    (forall r, answers d -> by_id adminID (users (world d)) = Some r ->
               u_is_admin r = true ->
       RevokeAdmin adminID adminID d =
       (Some (errors_New "cannot revoke your own admin privileges"),
        {| world := world d; sent := sent d ++ [SelectUserByID adminID]; fate := fate d |})).
Proof.
  intros d adminID. unfold RevokeAdmin, chain. rewrite GetUserByID_run.
  unfold answers. split.
  - destruct (fate d (length (sent d))); [reflexivity |].
    destruct (by_id adminID (users (world d))) as [r |]; [| reflexivity].
    destruct (negb (IsAdmin (user.scan r))); [reflexivity |].
    rewrite Z.eqb_refl. reflexivity.
  - intros r Hans Hr Hadm. rewrite Hans, Hr. cbn [user.scan IsAdmin].
    rewrite Hadm, Z.eqb_refl. reflexivity.
Qed.

Lemma RevokeAdmin_not_of_oneself_witness :
  RevokeAdmin 2 2 office =
  (Some (errors_New "cannot revoke your own admin privileges"),
   {| world := world office; sent := sent office ++ [SelectUserByID 2];
      fate := fate office |}).
Proof.
  refine (proj2 (RevokeAdmin_not_of_oneself office 2) root _ _ _).
  - reflexivity.
  - vm_compute. reflexivity.
  - reflexivity.
Defined.

Lemma by_id_at_id_elsewhere (id id' : Z) (f : UserRow -> UserRow) (rows : list UserRow) :
  (forall r, u_id (f r) = u_id r) -> id' <> id ->
  by_id id' (at_id id f rows) = by_id id' rows.
Proof.
  intros Hf Hne. unfold by_id, at_id. induction rows as [| r rows IH]; [reflexivity |].
  simpl. destruct (Z.eqb_spec (u_id r) id) as [Hid | Hid].
  - rewrite Hf. destruct (Z.eqb_spec (u_id r) id'); [congruence | exact IH].
  - destruct (u_id r =? id'); [reflexivity | exact IH].
Qed.

Lemma length_snoc {A : Type} (l : list A) (x : A) : length (l ++ [x]) = S (length l).
Proof. rewrite length_app, Nat.add_comm. reflexivity. Qed.

Lemma at_id_key_eq (id : Z) (f g : UserRow -> UserRow) (rows : list UserRow) (r : UserRow) :
  NoDup (map u_id rows) -> by_id id rows = Some r -> g r = f r ->
  at_id id g rows = at_id id f rows.
Proof.
  intros Hkey Hfind Hgf. exact (proj2 (@at_id_key id f g rows r Hkey Hfind Hgf)).
Qed.

(** X15. What the administrative changes write when they go through:
    with ids that are a key of the table, an actor who is an administrator,
    a target that exists and a database that answers the three statements,
    [MakeAdmin] sets the administrator flag of the target, [RevokeAdmin]
    (of another user than the actor) clears it and leaves the actor an
    administrator, [UpdateUserStatus] sets the status of the target; each
    returns no error, changes that one column of that one row and nothing
    else in the table. *)
Theorem admin_mutations_write_one_column :
  forall (d : Db) (userID adminID : Z) (status : string) (admin target : UserRow),
    let rows := users (world d) in
    let n := length (sent d) in
    NoDup (map u_id rows) ->
    by_id adminID rows = Some admin -> u_is_admin admin = true ->
    by_id userID rows = Some target ->
    fate d n = None -> fate d (S n) = None -> fate d (S (S n)) = None ->
    (fst (MakeAdmin userID adminID d) = None /\
     users (world (snd (MakeAdmin userID adminID d))) = at_id userID (flagged true) rows) /\
    (userID <> adminID ->
     fst (RevokeAdmin userID adminID d) = None /\
     users (world (snd (RevokeAdmin userID adminID d))) = at_id userID (flagged false) rows /\
     by_id adminID (users (world (snd (RevokeAdmin userID adminID d)))) = Some admin) /\
    (fst (UpdateUserStatus userID status adminID d) = None /\
     users (world (snd (UpdateUserStatus userID status adminID d))) =
       at_id userID (labelled status) rows).
Proof.
  intros d userID adminID status admin target rows n Hkey Hadmin Hflag Htarget H0 H1 H2.
  subst rows n.
  assert (Htid : u_id target = userID) by (now apply by_id_In in Htarget).
  unfold MakeAdmin, RevokeAdmin, UpdateUserStatus, chain.
  rewrite !GetUserByID_run, H0, Hadmin. cbn [user.scan IsAdmin]. rewrite Hflag. cbn [negb].
  rewrite !GetUserByID_run. dsimpl. rewrite !length_snoc, H1, Htarget.
  rewrite !UpdateUser_run. cbv zeta. dsimpl. rewrite !length_snoc, H2.
  cbn [with_IsAdmin with_Status user.scan ID]. rewrite Htid, Htarget. dsimpl.
  split; [| split].
  - split; [reflexivity |].
    apply at_id_key_eq with (r := target); [exact Hkey | exact Htarget |].
    destruct target; reflexivity.
  - intros Hne. apply Z.eqb_neq in Hne. rewrite Hne.
    rewrite GetUserByID_run. dsimpl. rewrite !length_snoc, H1, Htarget.
    rewrite UpdateUser_run. cbv zeta. dsimpl. rewrite !length_snoc, H2.
    cbn [with_IsAdmin user.scan ID]. rewrite Htid, Htarget. dsimpl. unfold yield. dsimpl.
    split; [reflexivity |].
    assert (Heq : at_id userID (written (with_IsAdmin false (user.scan target)))
                        (users (world d)) = at_id userID (flagged false) (users (world d))).
    { apply at_id_key_eq with (r := target); [exact Hkey | exact Htarget |].
      destruct target; reflexivity. }
    cbn [with_IsAdmin user.scan] in Heq. split; [exact Heq |].
    cbn [with_IsAdmin user.scan]. rewrite Heq, by_id_at_id_elsewhere; [exact Hadmin | |].
    + intros r. reflexivity.
    + apply Z.eqb_neq in Hne. congruence.
  - split; [reflexivity |].
    apply at_id_key_eq with (r := target); [exact Hkey | exact Htarget |].
    destruct target; reflexivity.
Qed.

Lemma office_ids : NoDup (map u_id (users (world office))).
Proof.
  assert (H : map u_id (users (world office)) = [1; 2]) by (vm_compute; reflexivity).
  rewrite H. constructor; [| constructor; [| constructor]]; simpl; intuition discriminate.
Qed.

Lemma admin_mutations_write_one_column_witness :
  users (world (snd (MakeAdmin 1 2 office))) = at_id 1 (flagged true) (users (world office)).
Proof.
  refine (proj2 (proj1 (@admin_mutations_write_one_column office 1 2 "active" root
                          (hd root (users (world office))) office_ids _ _ _ _ _ _)));
    vm_compute; reflexivity.
Defined.

(** *** Approval *)

Lemma ApproveUser_run (userID approvedBy : Z) (d : Db) :
  UserRepo_ApproveUser userID approvedBy d =
  let q := ApproveUserByID approvedBy userID in
  match fate d (length (sent d)) with
  | Some e => (Some e, {| world := world d; sent := sent d ++ [q]; fate := fate d |})
  | None =>
      (match by_id userID (users (world d)) with
       | None => Some ErrNoRows
       | Some _ => None
       end,
       {| world := with_users (at_id userID (approved (now (world d)) approvedBy))
                              (with_ticks (S (ticks (world d))) (world d));
          sent := sent d ++ [q]; fate := fate d |})
  end.
Proof.
  unfold UserRepo_ApproveUser, chain, exec, lift, get, modify, time_Now, yield, by_id, at_id, now.
  dsimpl. destruct (fate d (length (sent d))); [reflexivity |].
  destruct (world d) as [tk us sr wl ti en dr dv jn]; dsimpl.
  assert (H : Nat.eqb (length (filter (fun r => u_id r =? userID) us)) 0 =
              match find (fun r => u_id r =? userID) us with None => true | Some _ => false end).
  { clear. induction us as [| r us IH]; [reflexivity |].
    simpl. destruct (u_id r =? userID); [reflexivity | exact IH]. }
  rewrite H. destruct (find _ us); reflexivity.
Qed.

(** X16. The refusals of [ApproveUser], in the order of its checks, with
    a database that answers: a target that does not exist gives
    [ErrUserNotFound]; a target that is approved already gives
    [ErrUserAlreadyApproved], whoever asks, before the approver is looked
    up; for a target not yet approved, an approver who does not exist or
    is no administrator gives [ErrUnauthorized]. In all three cases the
    world, so the table, is as before. *)
Theorem ApproveUser_refusals :
  forall (d : Db) (userID approvedBy : Z),
    answers d ->
    let rows := users (world d) in
    let seen := {| world := world d; sent := sent d ++ [SelectUserByID userID];
                   fate := fate d |} in
    (by_id userID rows = None ->
       ApproveUser userID approvedBy d = (Some ErrUserNotFound, seen)) /\
    (forall r t, by_id userID rows = Some r -> u_approved_at r = Some t ->
       ApproveUser userID approvedBy d = (Some ErrUserAlreadyApproved, seen)) /\
    (forall r, by_id userID rows = Some r -> u_approved_at r = None ->
       fate d (S (length (sent d))) = None ->
       (forall a, by_id approvedBy rows = Some a -> u_is_admin a = false) ->
       ApproveUser userID approvedBy d =
       (Some ErrUnauthorized,
        {| world := world d;
           sent := sent d ++ [SelectUserByID userID; SelectUserByID approvedBy];
           fate := fate d |})).
Proof.
  intros d userID approvedBy Hans rows seen. subst rows seen.
  unfold ApproveUser, chain. rewrite GetUserByID_run. unfold answers in Hans. rewrite Hans.
  split; [| split].
  - intros ->. reflexivity.
  - intros r t -> Happ. cbn [user.scan ApprovedAt]. rewrite Happ. reflexivity.
  - intros r -> Happ H1 Hno. cbn [user.scan ApprovedAt]. rewrite Happ.
    rewrite GetUserByID_run. dsimpl. rewrite length_snoc, H1, <- app_assoc. cbn [app].
    destruct (by_id approvedBy (users (world d))) as [a |] eqn:Ha; [| reflexivity].
    cbn [user.scan IsAdmin]. rewrite (Hno a eq_refl). reflexivity.
Qed.

Lemma ApproveUser_refusals_witness :
  ApproveUser 1 1 office =
  (Some ErrUnauthorized,
   {| world := world office;
      sent := sent office ++ [SelectUserByID 1; SelectUserByID 1];
      fate := fate office |}).
Proof.
  refine (proj2 (proj2 (@ApproveUser_refusals office 1 1 _))
                (hd root (users (world office))) _ _ _ _).
  - reflexivity.
  - vm_compute. reflexivity.
  - vm_compute. reflexivity.
  - reflexivity.
  - intros a Ha. vm_compute in Ha. injection Ha as <-. reflexivity.
Defined.

Lemma find_map_same {A : Type} (p : A -> bool) (g : A -> A) (l : list A) :
  (forall x, p (g x) = p x) -> find p (map g l) = option_map g (find p l).
Proof.
  intros Hp. induction l as [| x l IH]; [reflexivity |].
  simpl. rewrite Hp. destruct (p x); [reflexivity | exact IH].
Qed.

Section ApprovalOpensTheGate.

Variable B : bcrypt.Impl.

(** X17. [ApproveUser] by an administrator, for a target that exists and
    is not approved, with ids that are a key and a database that answers,
    returns no error and writes the reading of the clock and the id of the
    approver into the row of the target, and nothing else. From then on
    the target passes the gate: on any later world with that table and a
    working database, [AuthenticateUser] under the name of the target (the
    row its name finds) with a password that bcrypt accepts for the stored
    hash returns the user, approval time set. *)
Theorem ApproveUser_opens_the_gate :
  forall (d : Db) (userID approvedBy : Z) (target approver : UserRow),
    let rows := users (world d) in
    let n := length (sent d) in
    NoDup (map u_id rows) ->
    by_id userID rows = Some target -> u_approved_at target = None ->
    by_id approvedBy rows = Some approver -> u_is_admin approver = true ->
    fate d n = None -> fate d (S n) = None -> fate d (S (S n)) = None ->
    let d' := snd (ApproveUser userID approvedBy d) in
    let row := approved (now (world d)) approvedBy target in
    fst (ApproveUser userID approvedBy d) = None /\
    users (world d') = at_id userID (approved (now (world d)) approvedBy) rows /\
    by_id userID (users (world d')) = Some row /\
    (forall x, In x rows -> u_id x <> userID -> In x (users (world d'))) /\
    (forall (later : World) (pw : string),
       users later = users (world d') -> delivers later ->
       by_name (u_username target) rows = Some target ->
       bcrypt.CompareHashAndPassword B (u_password_hash target) (list_byte_of_string pw) = None ->
       fst (AuthenticateUser B user.service (u_username target) pw later) =
       (Some (user.scan row), None)).
Proof.
  intros d userID approvedBy target approver rows n Hkey Htarget Hnull Happrover Hadm
         H0 H1 H2 d' row. subst rows n d' row.
  unfold ApproveUser, chain.
  rewrite GetUserByID_run, H0, Htarget. cbn [user.scan ApprovedAt]. rewrite Hnull.
  rewrite GetUserByID_run. dsimpl. rewrite length_snoc, H1, Happrover.
  cbn [user.scan IsAdmin]. rewrite Hadm. cbn [negb].
  rewrite ApproveUser_run. cbv zeta. dsimpl. rewrite !length_snoc, H2, Htarget. dsimpl.
  set (g := fun r => if u_id r =? userID then approved (now (world d)) approvedBy r else r).
  assert (Hid : forall x, u_id (g x) = u_id x)
    by (intros x; unfold g; destruct (u_id x =? userID); reflexivity).
  assert (Hname : forall x, u_username (g x) = u_username x)
    by (intros x; unfold g; destruct (u_id x =? userID); reflexivity).
  assert (Htid : u_id target = userID) by (now apply by_id_In in Htarget).
  assert (Hg : g target = approved (now (world d)) approvedBy target)
    by (unfold g; rewrite Htid, Z.eqb_refl; reflexivity).
  split; [reflexivity |]. split; [reflexivity |]. split; [| split].
  - unfold by_id, at_id. fold g. rewrite find_map_same.
    + fold (by_id userID (users (world d))). rewrite Htarget. cbn. now rewrite Hg.
    + intros x. now rewrite Hid.
  - intros x Hx Hne. unfold at_id. apply in_map_iff. exists x. split; [| exact Hx].
    apply Z.eqb_neq in Hne. now rewrite Hne.
  - intros later pw Hrows Hdel Hbyname Hcmp.
    unfold AuthenticateUser, bind.
    cbn [Store_GetUserByUsername user.repo user.service NewUserService UserRepo].
    rewrite GetUserByUsername_run. unfold delivers in Hdel. rewrite Hdel, Hrows.
    unfold at_id. fold g. rewrite find_map_same.
    + fold (by_name (u_username target) (users (world d))). rewrite Hbyname. cbn [option_map].
      rewrite Hg. unfold password_Matches. cbn [user.scan PasswordHash hash approved
        u_password_hash ApprovedAt u_approved_at]. rewrite Hcmp. reflexivity.
    + intros x. now rewrite Hname.
Qed.

End ApprovalOpensTheGate.

Lemma ApproveUser_opens_the_gate_witness :
  fst (AuthenticateUser sample.bcrypt user.service "user_name-1" "Valid1Pass"
         (world (snd (ApproveUser 1 2 office)))) =
  (Some (user.scan (approved (now (world office)) 2 (hd root (users (world office))))), None).
Proof.
  refine (proj2 (proj2 (proj2 (proj2
            (@ApproveUser_opens_the_gate sample.bcrypt office 1 2
               (hd root (users (world office))) root office_ids _ _ _ _ _ _ _))))
          (world (snd (ApproveUser 1 2 office))) "Valid1Pass" eq_refl _ _ _);
    vm_compute; reflexivity.
Defined.

(** *** Changing a password, changing a user, deleting a user *)

Lemma at_id_column {C : Type} (col : UserRow -> C) (id : Z) (f : UserRow -> UserRow)
      (rows : list UserRow) :
  (forall r, col (f r) = col r) -> map col (at_id id f rows) = map col rows.
Proof.
  intros Hf. unfold at_id. rewrite map_map. apply map_ext. intros r.
  destruct (u_id r =? id); [apply Hf | reflexivity].
Qed.

Lemma by_id_of_In (rows : list UserRow) (r : UserRow) :
  NoDup (map u_id rows) -> In r rows -> by_id (u_id r) rows = Some r.
Proof.
  unfold by_id. induction rows as [| x rows IH]; intros Hkey Hin; [destruct Hin |].
  simpl in Hkey. apply NoDup_cons_iff in Hkey. destruct Hkey as [Hx Hkey].
  simpl. destruct (Z.eqb_spec (u_id x) (u_id r)) as [Heq | Hne].
  - destruct Hin as [-> | Hin]; [reflexivity |].
    destruct Hx. rewrite Heq. now apply in_map.
  - destruct Hin as [-> | Hin]; [now destruct Hne | now apply IH].
Qed.

Lemma at_id_same (id : Z) (rows : list UserRow) : at_id id (fun r => r) rows = rows.
Proof.
  unfold at_id. rewrite <- (map_id rows) at 2. apply map_ext. intros r.
  destruct (u_id r =? id); reflexivity.
Qed.

Section ChangingPasswords.

Variable B : bcrypt.Impl.

(** X18. [ChangePassword] never changes a stored password hash: whatever
    the passwords, the database and bcrypt do, the hashes in the table
    after the call are the hashes before it, row by row, and the table of
    tokens is as before. The new hash is put into the user in memory only,
    and the UPDATE that follows writes no password column. With ids that
    are a key the whole table of users is as before, also when the call
    returns no error. *)
Theorem ChangePassword_never_changes_the_hash :
  forall (d : Db) (username currentPassword newPassword : string),
    let d' := snd (ChangePassword B username currentPassword newPassword d) in
    map u_password_hash (users (world d')) = map u_password_hash (users (world d)) /\
    tokens (world d') = tokens (world d) /\
    (NoDup (map u_id (users (world d))) -> users (world d') = users (world d)).
Proof.
  intros d username cur new d'. subst d'.
  unfold ChangePassword, chain, lift.
  unfold AuthenticateUser, bind.
  cbn [Store_GetUserByUsername user.repo user.service NewUserService UserRepo].
  rewrite GetUserByUsername_run.
  destruct (driver (world d) (length (journal (world d)))); [dsimpl; auto |].
  destruct (find _ (users (world d))) as [row |] eqn:Hrow; [| dsimpl; auto].
  destruct (password_Matches B (PasswordHash (user.scan row)) cur) as [m [e |]];
    [dsimpl; auto |].
  destruct m; cbn [negb]; [| dsimpl; auto].
  destruct (ApprovedAt (user.scan row)); [| dsimpl; auto].
  unfold ret. dsimpl.
  destruct (validatePassword user.service new); [dsimpl; auto |].
  unfold password_Set, bcrypt_GenerateFromPassword, bind, ret. dsimpl.
  destruct (bcrypt.GenerateFromPassword B _ 12 _) as [h [e |]]; [dsimpl; auto |].
  rewrite UpdateUser_run. cbv zeta. dsimpl.
  destruct (fate d (length (sent d))); [dsimpl; auto |].
  dsimpl. cbn [with_PasswordHash ID user.scan].
  split; [| split].
  - apply at_id_column. intros r. reflexivity.
  - reflexivity.
  - intros Hkey. apply find_some in Hrow. destruct Hrow as [Hin _].
    rewrite <- (at_id_same (u_id row) (users (world d))) at 2.
    apply at_id_key_eq with (r := row); [exact Hkey | now apply by_id_of_In |].
    destruct row; reflexivity.
Qed.

End ChangingPasswords.

(** A change of password that returns no error, on the sample world with
    the approved user: afterwards the old password is the one that logs
    in, and the new one is refused. *)
Example ChangePassword_sample :
  let d' := snd (ChangePassword sample.bcrypt "user_name-1" "Valid1Pass" "Newer2Pass"
                                (over sample.approved)) in
  fst (ChangePassword sample.bcrypt "user_name-1" "Valid1Pass" "Newer2Pass"
                      (over sample.approved)) = None /\
  snd (fst (AuthenticateUser sample.bcrypt user.service "user_name-1" "Valid1Pass"
                             (world d'))) = None /\
  fst (AuthenticateUser sample.bcrypt user.service "user_name-1" "Newer2Pass" (world d')) =
    (None, Some ErrUnauthorized).
Proof. cbv zeta. split; [| split]; vm_compute; reflexivity. Qed.

Lemma ChangePassword_never_changes_the_hash_witness :
  users (world (snd (ChangePassword sample.bcrypt "user_name-1" "Valid1Pass" "Newer2Pass"
                                    (over sample.approved)))) =
  users (world (over sample.approved)).
Proof.
  refine (proj2 (proj2 (ChangePassword_never_changes_the_hash sample.bcrypt
                          (over sample.approved) "user_name-1" "Valid1Pass" "Newer2Pass")) _).
  assert (H : map u_id (users (world (over sample.approved))) = [1])
    by (vm_compute; reflexivity).
  rewrite H. constructor; [intros [] | constructor].
Defined.

Lemma DeleteUserByUsername_run (username : string) (d : Db) :
  UserRepo_DeleteUserByUsername username d =
  let q := DeleteUserOfUsername username in
  match fate d (length (sent d)) with
  | Some e => (Some e, {| world := world d; sent := sent d ++ [q]; fate := fate d |})
  | None =>
      (match by_name username (users (world d)) with
       | None => Some ErrNoRows
       | Some _ => None
       end,
       {| world := with_users (filter (fun r => negb (String.eqb (u_username r) username)))
                              (world d);
          sent := sent d ++ [q]; fate := fate d |})
  end.
Proof.
  unfold UserRepo_DeleteUserByUsername, chain, exec, lift, get, modify, yield, by_name. dsimpl.
  destruct (fate d (length (sent d))); [reflexivity |].
  destruct (world d) as [tk us sr wl ti en dr dv jn]; dsimpl.
  assert (H : Nat.eqb (length (filter (fun r => String.eqb (u_username r) username) us)) 0 =
              match find (fun r => String.eqb (u_username r) username) us with
              | None => true | Some _ => false end).
  { clear. induction us as [| r us IH]; [reflexivity |].
    simpl. destruct (String.eqb (u_username r) username); [reflexivity | exact IH]. }
  rewrite H. destruct (find _ us); reflexivity.
Qed.

(** X19. [DeleteUser], with a database that answers: when no row has the
    name it returns [ErrNoRows] and the table is as before; when a row has
    it, it returns no error and removes the rows of that name and no
    other. After that the name is gone: [GetUserByUsername] returns
    [ErrUserNotFound], and a second [DeleteUser] of the name returns
    [ErrNoRows]. Unlike the deletions of tokens, the deletion of a user
    that is not there is an error. *)
Theorem DeleteUser_removes_or_reports :
  forall (d : Db) (username : string),
    answers d ->
    let rows := users (world d) in
    let d' := snd (DeleteUser username d) in
    (by_name username rows = None ->
       fst (DeleteUser username d) = Some ErrNoRows /\ users (world d') = rows) /\
    (forall r, by_name username rows = Some r ->
       fst (DeleteUser username d) = None /\
       (forall x, In x (users (world d')) <-> In x rows /\ u_username x <> username) /\
       (answers d' -> fst (DeleteUser username d') = Some ErrNoRows) /\
       (delivers (world d') ->
          fst (GetUserByUsername username d') = (None, Some ErrUserNotFound))).
Proof.
  intros d username Hans rows d'. subst rows d'.
  unfold DeleteUser. rewrite DeleteUserByUsername_run. cbv zeta.
  unfold answers in Hans. rewrite Hans. dsimpl.
  assert (Hin : forall x,
             In x (filter (fun r => negb (String.eqb (u_username r) username))
                          (users (world d))) <->
             In x (users (world d)) /\ u_username x <> username).
  { intros x. rewrite filter_In.
    destruct (String.eqb_spec (u_username x) username); cbn; intuition congruence. }
  assert (Hgone : by_name username
                    (filter (fun r => negb (String.eqb (u_username r) username))
                            (users (world d))) = None).
  { apply find_username_none. intros x Hx. apply Hin in Hx. tauto. }
  split.
  - intros Hnone. rewrite Hnone. split; [reflexivity |].
    apply filter_all. intros x Hx.
    pose proof (proj1 (find_username_none username (users (world d))) Hnone x Hx) as Hne.
    apply String.eqb_neq in Hne. now rewrite Hne.
  - intros r Hr. rewrite Hr. split; [reflexivity |]. split; [exact Hin |]. split.
    + unfold answers. dsimpl. intros Hans'.
      rewrite DeleteUserByUsername_run. cbv zeta. dsimpl. rewrite Hans', Hgone. reflexivity.
    + unfold delivers. dsimpl. intros Hdel.
      unfold GetUserByUsername, chain, lift. dsimpl.
      rewrite GetUserByUsername_run. dsimpl. rewrite Hdel.
      unfold by_name in Hgone. rewrite Hgone. reflexivity.
Qed.

Lemma DeleteUser_removes_or_reports_witness :
  fst (DeleteUser "nobody" office) = Some ErrNoRows /\
  users (world (snd (DeleteUser "nobody" office))) = users (world office).
Proof.
  refine (proj1 (@DeleteUser_removes_or_reports office "nobody" _) _).
  - reflexivity.
  - vm_compute. reflexivity.
Defined.

(** X20. [UpdateUser] of the service refuses a name that fails validation
    before any statement is sent. It never changes the id, the password
    hash or the time of creation of any row. With a valid name and a
    database that answers, an id that finds no row gives [ErrNoRows] and an
    unchanged table; an id that finds a row gives no error, and the row
    then has the name, status, administrator flag and approval of the user
    given. *)
Theorem UpdateUser_writes_five_columns :
  forall (d : Db) (u : User),
    let rows := users (world d) in
    let d' := snd (UpdateUser u d) in
    (validateUsername user.service (Username u) <> None ->
       UpdateUser u d = (Some ErrInvalidUsername, d)) /\
    (map u_id (users (world d')) = map u_id rows /\
     map u_password_hash (users (world d')) = map u_password_hash rows /\
     map u_created_at (users (world d')) = map u_created_at rows) /\
    (validateUsername user.service (Username u) = None -> answers d ->
       (by_id (ID u) rows = None ->
          fst (UpdateUser u d) = Some ErrNoRows /\ users (world d') = rows) /\
       (forall r, by_id (ID u) rows = Some r ->
          fst (UpdateUser u d) = None /\
          users (world d') = at_id (ID u) (written u) rows /\
          by_id (ID u) (users (world d')) = Some (written u r))).
Proof.
  intros d u rows d'. subst rows d'. unfold UpdateUser.
  destruct (validateUsername user.service (Username u)) as [e |] eqn:Hv.
  - apply validateUsername_error in Hv. subst e. unfold yield. dsimpl.
    split; [reflexivity |]. split; [auto |]. discriminate.
  - rewrite UpdateUser_run. cbv zeta. unfold answers.
    split; [intros H; now destruct H |]. split.
    + destruct (fate d (length (sent d))); dsimpl; [auto |].
      repeat split; apply at_id_column; reflexivity.
    + intros _ Hans. rewrite Hans. dsimpl. split.
      * intros Hnone. rewrite Hnone. split; [reflexivity | now apply at_id_absent].
      * intros r Hr. rewrite Hr. split; [reflexivity |]. split; [reflexivity |].
        unfold by_id, at_id. rewrite find_map_same.
        -- fold (by_id (ID u) (users (world d))). rewrite Hr. cbn [option_map].
           apply by_id_In in Hr. destruct Hr as [_ Hid]. now rewrite Hid, Z.eqb_refl.
        -- intros x. destruct (u_id x =? ID u) eqn:E; [cbn [written u_id] |]; exact E.
Qed.

Lemma UpdateUser_writes_five_columns_witness :
  UpdateUser {| ID := 2; Username := "x"; PasswordHash := {| plainText := None; hash := [] |};
                CreatedAt := 0; ApprovedAt := None; ApprovedBy := None; IsAdmin := true;
                Status := "active" |} office = (Some ErrInvalidUsername, office).
Proof.
  refine (proj1 (UpdateUser_writes_five_columns office _) _).
  vm_compute. discriminate.
Defined.

(** *** The owner of a token *)

Lemma GetUserToken_run (scope tokenPlainText : string) (d : Db) :
  UserRepo_GetUserToken scope tokenPlainText d =
  let hash := sha256.Sum256 (list_byte_of_string tokenPlainText) in
  let t := now (world d) in
  (match fate d (length (sent d)) with
   | Some e => (None, Some e)
   | None =>
       match find (owns hash scope t (tokens (world d))) (users (world d)) with
       | None => (None, None)
       | Some r => (Some (user.scan r), None)
       end
   end,
   {| world := with_ticks (S (ticks (world d))) (world d);
      sent := sent d ++ [SelectUserOfToken hash scope t]; fate := fate d |}).
Proof.
  unfold UserRepo_GetUserToken, chain, exec, lift, get, time_Now, yield, now. dsimpl.
  destruct (fate d (length (sent d))); [reflexivity |].
  destruct (world d) as [tk us sr wl ti en dr dv jn]; dsimpl.
  destruct (find _ us); reflexivity.
Qed.

Lemma owns_iff (hash : list byte) (scope : string) (t : Z) (rows : list TokenRow)
      (r : UserRow) :
  owns hash scope t rows r = true <->
  exists tok, In tok rows /\ t_user_id tok = u_id r /\ t_hash tok = hash /\
              t_scope tok = scope /\ t < t_expiry tok.
Proof.
  unfold owns. rewrite existsb_exists. split; intros (tok & Hin & H); exists tok.
  - rewrite !andb_true_iff in H. destruct H as [[[H1 H2] H3] H4].
    apply Z.eqb_eq in H1. apply bytes_eqb_eq in H2. apply String.eqb_eq in H3.
    apply Z.ltb_lt in H4. auto.
  - destruct H as (H1 & H2 & H3 & H4). split; [exact Hin |].
    rewrite !andb_true_iff. repeat split.
    + now apply Z.eqb_eq.
    + now apply bytes_eqb_eq.
    + now apply String.eqb_eq.
    + now apply Z.ltb_lt.
Qed.

(** X21. [GetUserToken] returns a user only for a token that is his: a
    row of the table of tokens with the digest of the plaintext, the scope
    asked for, the id of that user and an expiry strictly after the clock.
    At the instant of the expiry the two checks of the server part: a
    token whose expiry is the reading of the clock is still accepted by
    [ValidateToken], which refuses only once the clock is after the
    expiry, and is no longer accepted by [GetUserToken], which returns no
    user and no error. *)
Theorem GetUserToken_owner_and_expiry :
  forall (d : Db) (scope tokenPlainText : string),
    answers d ->
    let hash := sha256.Sum256 (list_byte_of_string tokenPlainText) in
    let t := now (world d) in
    (forall u, fst (UserRepo_GetUserToken scope tokenPlainText d) = (Some u, None) ->
       plainText (PasswordHash u) = None /\
       exists row tok,
         In row (users (world d)) /\ u = user.scan row /\
         In tok (tokens (world d)) /\ t_user_id tok = ID u /\ t_hash tok = hash /\
         t_scope tok = scope /\ t < t_expiry tok) /\
    (forall tok,
       find (has_hash hash) (tokens (world d)) = Some tok ->
       (forall x, In x (tokens (world d)) -> t_hash x = hash -> x = tok) ->
       t_expiry tok = t -> t_scope tok = scope -> delivers (world d) ->
       fst (ValidateToken token.service tokenPlainText scope (world d)) =
         (Some (token.scan tok), None) /\
       fst (UserRepo_GetUserToken scope tokenPlainText d) = (None, None)).
Proof.
  intros d scope p Hans hash t. subst hash t.
  rewrite GetUserToken_run. cbv zeta. unfold answers in Hans. rewrite Hans. cbn [fst].
  split.
  - intros u.
    destruct (find _ (users (world d))) as [row |] eqn:Hfind; [| discriminate].
    intros Heq. injection Heq as <-. split; [reflexivity |].
    apply find_some in Hfind. destruct Hfind as [Hin Howns].
    apply owns_iff in Howns. destruct Howns as (tok & Htok & H1 & H2 & H3 & H4).
    exists row, tok. repeat split; assumption.
  - intros tok Hfind Honly Hexp Hscope Hdel. split.
    + rewrite ValidateToken_run. cbv zeta. unfold delivers in Hdel.
      rewrite Hdel, Hfind. cbn [fst].
      assert (Hgt : (now (world d) >? t_expiry tok) = false)
        by (rewrite Hexp, Z.gtb_ltb; apply Z.ltb_irrefl).
      rewrite Hgt, Hscope, String.eqb_refl. reflexivity.
    + destruct (find _ (users (world d))) as [row |] eqn:Hrow; [| reflexivity].
      apply find_some in Hrow. destruct Hrow as [_ Howns].
      apply owns_iff in Howns. destruct Howns as (x & Hx & _ & Hh & _ & Hlt).
      rewrite (Honly x Hx Hh) in Hlt. lia.
Qed.

(** The refresh token of the sample login at the very reading of the
    clock at which it expires. *)
Lemma GetUserToken_owner_and_expiry_witness :
  fst (ValidateToken token.service sample.refresh_plaintext ScopeRefresh
         (world (over (with_ticks (Z.to_nat 10081) sample.logged_in)))) =
    (Some (token.scan (row_of (mint (sample.run 1) 7 (sample.clock 1 + RefreshTokenDuration)
                                    ScopeRefresh))), None) /\
  fst (UserRepo_GetUserToken ScopeRefresh sample.refresh_plaintext
         (over (with_ticks (Z.to_nat 10081) sample.logged_in))) = (None, None).
Proof.
  refine (proj2 (@GetUserToken_owner_and_expiry (over (with_ticks (Z.to_nat 10081) sample.logged_in))
                   ScopeRefresh sample.refresh_plaintext _)
                (row_of (mint (sample.run 1) 7 (sample.clock 1 + RefreshTokenDuration)
                              ScopeRefresh)) _ _ _ _ _).
  - reflexivity.
  - vm_compute. reflexivity.
  - intros x Hx Hh.
    assert (Hrows : tokens (world (over (with_ticks (Z.to_nat 10081) sample.logged_in))) =
                    [row_of (mint (sample.run 0) 7 (sample.clock 0 + AuthTokenDuration) ScopeAuth);
                     row_of (mint (sample.run 1) 7 (sample.clock 1 + RefreshTokenDuration)
                                  ScopeRefresh)]) by (vm_compute; reflexivity).
    rewrite Hrows in Hx. destruct Hx as [<- | [<- | []]]; [| reflexivity].
    exfalso. revert Hh. vm_compute. discriminate.
  - vm_compute. reflexivity.
  - reflexivity.
  - vm_compute. reflexivity.
Defined.
